(** * tagconfig: the tag-driven population engine of [tagconfig.go]

    A shallow embedding of [Process], [MustProcess], [processField],
    [decoderFrom] and [PopulateExternalSource], over a small model of the part of Go's
    [reflect] package that the engine uses: kinds, type descriptors, struct
    fields with their tags, and values.

    The record behind the [spec] pointer is mutated in place in Go; here
    [Process] returns the record as it is afterwards, next to the error,
    also when the error is not nil.  A source is a function of the key and
    the field's metadata, a sink answers each [Set] with nil or an error,
    and every call made on either is recorded, in order, in a list of
    events.  A pointer holds its pointee.  The panics of [reflect] that
    [PopulateExternalSource] can run into are an outcome of their own. *)

From Stdlib Require Import String Ascii List ZArith Bool.
Import ListNotations.
Open Scope string_scope.
Open Scope list_scope.
Set Warnings "-register-all".

(** ** reflect: kinds, types, struct fields, values *)

(** [reflect.Kind]; the kinds keep their qualified names, [reflect.String]
    and so on. *)
Module reflect.

Inductive Kind : Type :=
  | Invalid | Bool | Int | Int8 | Int16 | Int32 | Int64
  | Uint | Uint8 | Uint16 | Uint32 | Uint64 | Uintptr
  | Float32 | Float64 | Complex64 | Complex128
  | Array | Chan | Func | Interface | Map | Ptr | Slice | String | Struct
  | UnsafePointer.

Definition Kind_eqb (a b : Kind) : bool :=
  match a, b with
  | Invalid, Invalid | Bool, Bool | Int, Int | Int8, Int8 | Int16, Int16
  | Int32, Int32 | Int64, Int64 | Uint, Uint | Uint8, Uint8
  | Uint16, Uint16 | Uint32, Uint32 | Uint64, Uint64 | Uintptr, Uintptr
  | Float32, Float32 | Float64, Float64 | Complex64, Complex64
  | Complex128, Complex128 | Array, Array | Chan, Chan | Func, Func
  | Interface, Interface | Map, Map | Ptr, Ptr | Slice, Slice
  | String, String | Struct, Struct | UnsafePointer, UnsafePointer => true
  | _, _ => false
  end.

End reflect.

(** A struct tag, [reflect.StructTag], as the list of its [key:"value"]
    pairs in the order they are written. *)
Definition StructTag := list (string * string).

(** [StructTag.Get]: the value of the first pair under [key], or the empty
    string. *)
Fixpoint Tag_Get (tag : StructTag) (key : string) : string :=
  match tag with
  | [] => ""
  | (k, v) :: rest => if String.eqb k key then v else Tag_Get rest key
  end.

(** What every type descriptor answers without looking at its structure:
    [Type.PkgPath()], [Type.Name()] and [Type.String()]. *)
Record TypeHdr : Type := mkHdr {
  tPkgPath : string;
  tName : string;
  tString : string
}.

(** [reflect.Type] and [reflect.StructField].  [TBasic] stands for every
    type whose elements or fields the engine never asks for (numbers,
    booleans, strings, and also maps, channels, functions, ...). *)
Inductive rtype : Type :=
  | TBasic (h : TypeHdr) (k : reflect.Kind)
  | TPtr (h : TypeHdr) (elem : rtype)
  | TSlice (h : TypeHdr) (elem : rtype)
  | TStruct (h : TypeHdr) (fields : list StructField)
with StructField : Type :=
  | mkStructField (Name PkgPath : string) (Type_ : rtype) (Tag : StructTag)
                  (Anonymous : bool).

Definition Name (f : StructField) : string :=
  match f with mkStructField n _ _ _ _ => n end.
Definition PkgPath (f : StructField) : string :=
  match f with mkStructField _ p _ _ _ => p end.
Definition Type_ (f : StructField) : rtype :=
  match f with mkStructField _ _ t _ _ => t end.
Definition Tag (f : StructField) : StructTag :=
  match f with mkStructField _ _ _ t _ => t end.
Definition Anonymous (f : StructField) : bool :=
  match f with mkStructField _ _ _ _ a => a end.

Definition hdr (t : rtype) : TypeHdr :=
  match t with
  | TBasic h _ | TPtr h _ | TSlice h _ | TStruct h _ => h
  end.

(** [Type.Kind()]. *)
Definition Kind_of (t : rtype) : reflect.Kind :=
  match t with
  | TBasic _ k => k
  | TPtr _ _ => reflect.Ptr
  | TSlice _ _ => reflect.Slice
  | TStruct _ _ => reflect.Struct
  end.

(** Run-time values.  Integers are mathematical integers kept within the
    range of their type by the parsers; a float is its IEEE bit pattern; a
    pointer is nil or holds its pointee; a slice is nil or holds its
    elements; [VOpaque] stands for values of the kinds the engine never
    looks into. *)
Inductive rvalue : Type :=
  | VBool (b : bool)
  | VInt (z : Z)
  | VUint (z : Z)
  | VFloat (bits : Z)
  | VString (s : string)
  | VPtr (p : option rvalue)
  | VNilSlice
  | VSlice (elems : list rvalue)
  | VStruct (fields : list rvalue)
  | VOpaque (id : nat).

(** The zero value of a type: what [reflect.New] points to and what
    [reflect.MakeSlice] fills a fresh slice with. *)
Fixpoint Zero (t : rtype) : rvalue :=
  match t with
  | TBasic _ k =>
      match k with
      | reflect.Bool => VBool false
      | reflect.Int | reflect.Int8 | reflect.Int16 | reflect.Int32
      | reflect.Int64 => VInt 0
      | reflect.Uint | reflect.Uint8 | reflect.Uint16 | reflect.Uint32
      | reflect.Uint64 | reflect.Uintptr => VUint 0
      | reflect.Float32 | reflect.Float64 => VFloat 0
      | reflect.String => VString ""
      | _ => VOpaque 0
      end
  | TPtr _ _ => VPtr None
  | TSlice _ _ => VNilSlice
  | TStruct _ fs =>
      VStruct (map (fun f => match f with
                             | mkStructField _ _ ty _ _ => Zero ty
                             end) fs)
  end.

(** ** Errors *)

(** [ParseError]: the error of a field whose value could not be converted. *)
Record ParseError : Type := mkParseError {
  FieldName : string;
  TypeName : string;
  Value : string
}.

(** Go's [error] values as the engine meets them: a message (from
    [errors.New], [fmt.Errorf], the standard library's parsers, a Decoder or
    a sink) or a pointer to a [ParseError]. *)
Inductive error : Type :=
  | errorString (msg : string)
  | ParseErrorPtr (e : ParseError).

Definition ErrInvalidSpecification : error :=
  errorString "specification must be a struct pointer".

(** The [Error] method of [ParseError]. *)
Definition ParseError_Error (e : ParseError) : string :=
  "tagconfig.Process: assigning to " ++ FieldName e ++ ": converting '"
    ++ Value e ++ "' to type " ++ TypeName e.

(** [fmt.Errorf("required key %s missing value", key)]. *)
Definition errRequired (key : string) : error :=
  errorString ("required key " ++ key ++ " missing value").

(** ** The standard library the engine calls *)

(** [strconv] and [time] are not part of the repository: their parsers are
    taken as they come.  A parser answers with a value or with an error. *)
Class GoStd : Type := {
  (** [strconv.IntSize], the width of [int] and [uint]: 32 or 64. *)
  IntSize : Z;
  (** [strconv.ParseInt(s, base, bitSize)]. *)
  ParseInt : string -> Z -> Z -> Z + error;
  (** [strconv.ParseUint(s, base, bitSize)]. *)
  ParseUint : string -> Z -> Z -> Z + error;
  (** [strconv.ParseBool(s)]. *)
  ParseBool : string -> bool + error;
  (** [strconv.ParseFloat(s, bitSize)], the result as its bit pattern. *)
  ParseFloat : string -> Z -> Z + error;
  (** [time.ParseDuration(s)], the result in nanoseconds. *)
  ParseDuration : string -> Z + error
}.

(** [strings.Split(s, ",")]: the pieces between the commas, one more than
    there are commas. *)
Fixpoint Split_comma (s : string) : list string :=
  match s with
  | EmptyString => [""]
  | String c rest =>
      if Ascii.eqb c "," then "" :: Split_comma rest
      else match Split_comma rest with
           | piece :: more => String c piece :: more
           | [] => [String c ""]
           end
  end.

(** ** Custom decoders *)

(** The [Decode] method of a type implementing [Decoder]: from the raw
    string and the receiver, the receiver afterwards and the error. *)
Definition Decoder : Type := string -> rvalue -> rvalue * option error.

(** How [decoderFrom] found the decoder: on the field's own type, or on the
    pointer to it. *)
Inductive DecoderRef : Type :=
  | DecByValue (d : Decoder)
  | DecByAddr (d : Decoder).

(** [reflect.PointerTo]. *)
Definition PtrTo (t : rtype) : rtype :=
  TPtr (mkHdr "" "" ("*" ++ tString (hdr t))) t.

(** [decoder.Decode(value)] on a field holding [field]: a decoder found on
    the pointer to the field works through that pointer. *)
Definition Decode (dec : DecoderRef) (value : string) (field : rvalue)
  : rvalue * option error :=
  match dec with
  | DecByValue d => d value field
  | DecByAddr d =>
      match d value (VPtr (Some field)) with
      | (VPtr (Some field'), err) => (field', err)
      | (_, err) => (field, err)
      end
  end.

(** ** Sources, sinks and the calls made on them *)

(** [TagNameGetter], [TagValueGetter] and [TagValueSetter].  A source
    answers [Get] from the key and the field's metadata; a sink answers
    [Set] with nil ([None]) or an error. *)
Record TagNameGetter : Type := { TagName : string }.

Record TagValueGetter : Type := {
  getterTag :> TagNameGetter;
  Get : string -> StructField -> string
}.

Record TagValueSetter : Type := {
  setterTag :> TagNameGetter;
  Set_ : string -> rvalue -> StructField -> option error
}.

(** The calls the engine makes on its collaborators, in the order it makes
    them. *)
Inductive event : Type :=
  | CallGet (key : string) (t : StructField)
  | CallSet (key : string) (val : rvalue) (t : StructField).

(** The [spec interface{}] argument: nil, or a value with its dynamic
    type. *)
Inductive iface : Type :=
  | nilIface
  | Iface (typ : rtype) (val : rvalue).

(** How a call that may panic ends before its time. *)
Inductive abort : Type :=
  | Return (err : error)
  | Panic (msg : string).

(** The record handed to the engine is reached through a pointer that came
    in an interface, so a field of it carries reflect's read-only flag
    exactly when it is unexported: [f.CanSet()] and [f.CanInterface()] both
    come down to the field's [PkgPath] being empty. *)
Definition CanSet (sf : StructField) : bool := String.eqb (PkgPath sf) "".
Definition CanInterface (sf : StructField) : bool := String.eqb (PkgPath sf) "".

(** What [Value.Interface] panics with on an unexported field. *)
Definition panicInterface : string :=
  "reflect.Value.Interface: cannot return value obtained from unexported field or method".

(** [typeOfSpec.Field(i).Anonymous && f.Kind() == reflect.Struct]. *)
Definition isEmbeddedStruct (sf : StructField) : bool :=
  Anonymous sf && reflect.Kind_eqb (Kind_of (Type_ sf)) reflect.Struct.

(** The [for i := 0; i < s.NumField(); i++] loop of [Process]: [body] is
    one iteration on field [i], answering the error it returns with (if
    any), the field afterwards and the calls it made.  What was set before
    an error stays set. *)
Fixpoint fieldsLoop
    (body : StructField -> rvalue -> option error * rvalue * list event)
    (fs : list StructField) (vals : list rvalue)
  : option error * list rvalue * list event :=
  match fs, vals with
  | sf :: fs', f :: vals' =>
      match body sf f with
      | (Some err, f', ev) => (Some err, f' :: vals', ev)
      | (None, f', ev) =>
          let '(err, vals'', ev') := fieldsLoop body fs' vals' in
          (err, f' :: vals'', ev ++ ev')
      end
  | _, _ => (None, vals, [])
  end.

(** The same loop in [PopulateExternalSource], which only reads. *)
Fixpoint fieldsRange
    (body : StructField -> rvalue -> option abort * list event)
    (fs : list StructField) (vals : list rvalue)
  : option abort * list event :=
  match fs, vals with
  | sf :: fs', f :: vals' =>
      match body sf f with
      | (Some a, ev) => (Some a, ev)
      | (None, ev) =>
          let '(a, ev') := fieldsRange body fs' vals' in (a, ev ++ ev')
      end
  | _, _ => (None, [])
  end.

Section Engine.

(** The parsers, and the method sets of the program's types: [methods t] is
    the [Decode] method of [t] when [t] implements [Decoder]. *)
Context {std : GoStd} (methods : rtype -> option Decoder).

(** [decoderFrom].  Every field that reaches [processField] is settable
    ([Process] checks [CanSet]; the elements of a fresh slice are), so
    [CanInterface] and [CanAddr] hold at both tests.  [methods] is asked
    about the type of the field.  For a field of kind [Interface] Go's first
    assertion, on [field.Interface()], looks at the value the field holds
    instead, whose methods are not those of the field's type: a Decoder held
    in an interface field is outside this model. *)
Definition decoderFrom (typ : rtype) : option DecoderRef :=
  match methods typ with
  | Some d => Some (DecByValue d)
  | None =>
      match methods (PtrTo typ) with
      | Some d => Some (DecByAddr d)
      | None => None
      end
  end.

(** [Type.Bits()] on the numeric kinds. *)
Definition Bits (typ : rtype) : Z :=
  match Kind_of typ with
  | reflect.Int | reflect.Uint | reflect.Uintptr => IntSize
  | reflect.Int8 | reflect.Uint8 => 8
  | reflect.Int16 | reflect.Uint16 => 16
  | reflect.Int32 | reflect.Uint32 | reflect.Float32 => 32
  | reflect.Int64 | reflect.Uint64 | reflect.Float64
  | reflect.Complex64 => 64
  | reflect.Complex128 => 128
  | _ => 0
  end.

(** The loop of the [reflect.Slice] case: [sl.Index(i)] starts as the zero
    value of the element type; the first element that fails ends the loop. *)
Fixpoint processElems (pf : string -> rvalue -> rvalue * option error)
    (zero : rvalue) (vals : list string) : list rvalue + error :=
  match vals with
  | [] => inl []
  | val :: rest =>
      match pf val zero with
      | (_, Some err) => inr err
      | (x, None) =>
          match processElems pf zero rest with
          | inl xs => inl (x :: xs)
          | inr err => inr err
          end
      end
  end.

(** [time.Duration] is recognised by kind, package path and name. *)
Definition isDuration (typ : rtype) : bool :=
  reflect.Kind_eqb (Kind_of typ) reflect.Int64
    && String.eqb (tPkgPath (hdr typ)) "time"
    && String.eqb (tName (hdr typ)) "Duration".

(** The [switch typ.Kind()] of [processField], given [processField] itself
    for the elements of a slice. *)
Definition assignByKind
    (rec : string -> rtype -> rvalue -> rvalue * option error)
    (value : string) (typ : rtype) (field : rvalue) : rvalue * option error :=
  match typ with
  | TBasic _ reflect.String => (VString value, None)
  | TBasic _ (reflect.Int | reflect.Int8 | reflect.Int16 | reflect.Int32
              | reflect.Int64) =>
      match (if isDuration typ then ParseDuration value
             else ParseInt value 0 (Bits typ)) with
      | inr err => (field, Some err)
      | inl val => (VInt val, None)
      end
  | TBasic _ (reflect.Uint | reflect.Uint8 | reflect.Uint16 | reflect.Uint32
              | reflect.Uint64) =>
      match ParseUint value 0 (Bits typ) with
      | inr err => (field, Some err)
      | inl val => (VUint val, None)
      end
  | TBasic _ reflect.Bool =>
      match ParseBool value with
      | inr err => (field, Some err)
      | inl val => (VBool val, None)
      end
  | TBasic _ (reflect.Float32 | reflect.Float64) =>
      match ParseFloat value (Bits typ) with
      | inr err => (field, Some err)
      | inl val => (VFloat val, None)
      end
  | TSlice _ elem =>
      match processElems (fun val x => rec val elem x) (Zero elem)
                         (Split_comma value) with
      | inr err => (field, Some err)
      | inl sl => (VSlice sl, None)
      end
  | _ => (field, None)
  end.

(** [processField(value, field)], for a field of type [typ] holding
    [field]: the field afterwards and the error. *)
Fixpoint processField (value : string) (typ : rtype) (field : rvalue)
    {struct typ} : rvalue * option error :=
  match decoderFrom typ with
  | Some decoder => Decode decoder value field
  | None =>
      match typ with
      | TPtr _ elem =>
          let pointee := match field with
                         | VPtr (Some x) => x
                         | _ => Zero elem
                         end in
          let (x, err) := assignByKind processField value elem pointee in
          (VPtr (Some x), err)
      | _ => assignByKind processField value typ field
      end
  end.

(** The second half of an iteration of the loop of [Process], from
    [key := typeOfSpec.Field(i).Tag.Get(v.TagName())] on: the key, the
    lookup, the default, the required check and the assignment. *)
Definition Process_keyed (v : TagValueGetter) (sf : StructField) (f : rvalue)
  : option error * rvalue * list event :=
  let key := Tag_Get (Tag sf) (TagName v) in
  if String.eqb key "" then (None, f, [])
  else
    let value := Get v key sf in
    let ev := [CallGet key sf] in
    let def := Tag_Get (Tag sf) "default" in
    let value :=
      if negb (String.eqb def "") && String.eqb value "" then def
      else value in
    let req := Tag_Get (Tag sf) "required" in
    if String.eqb value "" && String.eqb def "" then
      if String.eqb req "true" then (Some (errRequired key), f, ev)
      else (None, f, ev)
    else
      match processField value (Type_ sf) f with
      | (f', Some _) =>
          (Some (ParseErrorPtr
                   {| FieldName := key;
                      TypeName := tString (hdr (Type_ sf));
                      Value := value |}), f', ev)
      | (f', None) => (None, f', ev)
      end.

(** One iteration of the loop of [Process] on field [sf] holding [f]: the
    error it returns with (if any), the field afterwards and the calls made.
    [embedded typ f] is the call [Process(v, embeddedPtr)] on the embedded
    record; nothing leaves the iteration after it, so the field goes on to
    the key lookup. *)
Definition Process_field
    (embedded : rtype -> rvalue -> option error * rvalue * list event)
    (v : TagValueGetter) (sf : StructField) (f : rvalue)
  : option error * rvalue * list event :=
  if negb (CanSet sf) || String.eqb (Tag_Get (Tag sf) "ignored") "true"
  then (None, f, [])
  else
    let '(err, f, ev) :=
      if isEmbeddedStruct sf then embedded (Type_ sf) f else (None, f, []) in
    match err with
    | Some err => (Some err, f, ev)
    | None =>
        let '(err, f, ev') := Process_keyed v sf f in
        (err, f, ev ++ ev')
    end.

(** [Process] from [s = s.Elem()] on: [typ] and [s] are the type and the
    value the pointer points to. *)
Fixpoint Process_Elem (v : TagValueGetter) (typ : rtype) (s : rvalue)
    {struct typ} : option error * rvalue * list event :=
  match typ with
  | TStruct _ fs =>
      match s with
      | VStruct vals =>
          let '(err, vals', ev) :=
            fieldsLoop (Process_field (Process_Elem v) v) fs vals in
          (err, VStruct vals', ev)
      | _ => (None, s, [])
      end
  | TBasic _ reflect.Struct => (None, s, [])
  | _ => (Some ErrInvalidSpecification, s, [])
  end.

(** [Process(v, spec)]: the error, the record behind [spec] afterwards, and
    the calls made on [v]. *)
Definition Process (v : TagValueGetter) (spec : iface)
  : option error * iface * list event :=
  match spec with
  | Iface (TPtr h elem) (VPtr (Some s)) =>
      let '(err, s', ev) := Process_Elem v elem s in
      (err, Iface (TPtr h elem) (VPtr (Some s')), ev)
  | _ => (Some ErrInvalidSpecification, spec, [])
  end.

(** One iteration of the loop of [PopulateExternalSource]. *)
Definition Populate_field
    (embedded : rtype -> rvalue -> option abort * list event)
    (v : TagValueSetter) (ft : StructField) (f : rvalue)
  : option abort * list event :=
  if isEmbeddedStruct ft then
    if CanInterface ft then embedded (Type_ ft) f
    else (Some (Panic panicInterface), [])
  else
    let t := Tag_Get (Tag ft) (TagName v) in
    if negb (String.eqb t "") then
      if CanInterface ft then
        match Set_ v t f ft with
        | Some err => (Some (Return err), [CallSet t f ft])
        | None => (None, [CallSet t f ft])
        end
      else (Some (Panic panicInterface), [])
    else (None, []).

(** [PopulateExternalSource] from [s = s.Elem()] on. *)
Fixpoint Populate_Elem (v : TagValueSetter) (typ : rtype) (s : rvalue)
    {struct typ} : option abort * list event :=
  match typ with
  | TStruct _ fs =>
      match s with
      | VStruct vals =>
          fieldsRange (Populate_field (Populate_Elem v) v) fs vals
      | _ => (None, [])
      end
  | TBasic _ reflect.Struct => (None, [])
  | _ => (Some (Return ErrInvalidSpecification), [])
  end.

(** [PopulateExternalSource(v, spec)]: how it ends ([None] for a nil
    error) and the calls made on [v]. *)
Definition PopulateExternalSource (v : TagValueSetter) (spec : iface)
  : option abort * list event :=
  match spec with
  | Iface (TPtr _ elem) (VPtr (Some s)) => Populate_Elem v elem s
  | _ => (Some (Return ErrInvalidSpecification), [])
  end.

End Engine.

(** ** The vocabulary of the properties *)

(** [reflect.ValueOf(spec).Kind()]: [Invalid] for a nil interface. *)
Definition ValueOf_Kind (spec : iface) : reflect.Kind :=
  match spec with
  | nilIface => reflect.Invalid
  | Iface typ _ => Kind_of typ
  end.

(** [reflect.ValueOf(spec).Elem().Kind()] for a pointer: the kind of what it
    points to, [Invalid] when it is nil. *)
Definition Elem_Kind (spec : iface) : reflect.Kind :=
  match spec with
  | Iface (TPtr _ elem) (VPtr (Some _)) => Kind_of elem
  | _ => reflect.Invalid
  end.

(** The commas of a string. *)
Fixpoint countCommas (s : string) : nat :=
  match s with
  | EmptyString => 0
  | String c rest => (if Ascii.eqb c "," then 1 else 0) + countCommas rest
  end.

(** The signed integer kinds, and the kinds [processField] has a case for:
    string, the signed and unsigned integers (not [Uintptr]), bool, the
    floats and slice. *)
Definition signedKind (k : reflect.Kind) : bool :=
  match k with
  | reflect.Int | reflect.Int8 | reflect.Int16 | reflect.Int32
  | reflect.Int64 => true
  | _ => false
  end.

Definition supportedKind (k : reflect.Kind) : bool :=
  match k with
  | reflect.String | reflect.Bool | reflect.Float32 | reflect.Float64
  | reflect.Slice
  | reflect.Int | reflect.Int8 | reflect.Int16 | reflect.Int32
  | reflect.Int64
  | reflect.Uint | reflect.Uint8 | reflect.Uint16 | reflect.Uint32
  | reflect.Uint64 => true
  | _ => false
  end.

(** ** The Default/Required Policy, as the specification tabulates it *)

Inductive decision : Type :=
  | UseValue (raw : string)
  | MissingRequired
  | LeaveField.

(** The table of the specification, row by row: a resolved value is used;
    an empty one gives way to a default; with neither, [required:"true"]
    fails and anything else leaves the field alone. *)
Definition policy (resolved def req : string) : decision :=
  if negb (String.eqb resolved "") then UseValue resolved
  else if negb (String.eqb def "") then UseValue def
  else if String.eqb req "true" then MissingRequired
  else LeaveField.

(** ** An executable standard library, and the records of the test suite *)

(** Decimal digits. *)
Definition digit (c : ascii) : option Z :=
  let n := nat_of_ascii c in
  if (48 <=? n)%nat && (n <=? 57)%nat then Some (Z.of_nat (n - 48)) else None.

Fixpoint digits (s : string) (acc : Z) : option Z :=
  match s with
  | EmptyString => Some acc
  | String c rest =>
      match digit c with
      | Some d => digits rest (10 * acc + d)
      | None => None
      end
  end.

(** A decimal literal as base 0 reads it: a leading zero would announce
    another base, so only ["0"] itself may start with one. *)
Definition decimal (s : string) : option Z :=
  match s with
  | EmptyString => None
  | String c rest =>
      if Ascii.eqb c "0" then (if String.eqb rest "" then Some 0%Z else None)
      else digits s 0
  end.

Definition errSyntax : error := errorString "invalid syntax".
Definition errRange : error := errorString "value out of range".

Definition liteParseUint (s : string) (base bitSize : Z) : Z + error :=
  match decimal s with
  | Some n => if (n <? 2 ^ bitSize)%Z then inl n else inr errRange
  | None => inr errSyntax
  end.

Definition liteParseInt (s : string) (base bitSize : Z) : Z + error :=
  let '(neg, body) :=
    match s with
    | String c rest =>
        if Ascii.eqb c "-" then (true, rest)
        else if Ascii.eqb c "+" then (false, rest) else (false, s)
    | EmptyString => (false, s)
    end in
  match decimal body with
  | Some n =>
      let z := if neg then (- n)%Z else n in
      if ((- 2 ^ (bitSize - 1) <=? z) && (z <? 2 ^ (bitSize - 1)))%Z
      then inl z else inr errRange
  | None => inr errSyntax
  end.

(** [strconv.ParseBool] accepts exactly these twelve literals. *)
Definition liteParseBool (s : string) : bool + error :=
  if existsb (String.eqb s) ["1"; "t"; "T"; "TRUE"; "true"; "True"]
  then inl true
  else if existsb (String.eqb s) ["0"; "f"; "F"; "FALSE"; "false"; "False"]
  then inl false
  else inr errSyntax.

Definition liteParseFloat (s : string) (bitSize : Z) : Z + error :=
  if String.eqb s "0" then inl 0%Z else inr errSyntax.

(** The units of [time.ParseDuration], in nanoseconds. *)
Definition unitNanos (u : string) : option Z :=
  if String.eqb u "ns" then Some 1%Z
  else if String.eqb u "us" then Some 1000%Z
  else if String.eqb u "ms" then Some 1000000%Z
  else if String.eqb u "s" then Some 1000000000%Z
  else if String.eqb u "m" then Some 60000000000%Z
  else if String.eqb u "h" then Some 3600000000000%Z
  else None.

(** A duration as a sequence of whole numbers, each followed by its unit;
    [num] and [unit] hold the component being read. *)
Fixpoint durationLoop (s : string) (total : Z) (num : option Z)
    (unit : string) : option Z :=
  match s with
  | EmptyString =>
      match num, unitNanos unit with
      | Some n, Some u => Some (total + n * u)%Z
      | _, _ => None
      end
  | String c rest =>
      match digit c with
      | Some d =>
          if String.eqb unit "" then
            durationLoop rest total
              (Some (10 * match num with Some n => n | None => 0 end + d)%Z) ""
          else
            match num, unitNanos unit with
            | Some n, Some u => durationLoop rest (total + n * u)%Z (Some d) ""
            | _, _ => None
            end
      | None =>
          match num with
          | Some _ => durationLoop rest total num (unit ++ String c "")
          | None => None
          end
      end
  end.

Definition liteParseDuration (s : string) : Z + error :=
  let '(neg, body) :=
    match s with
    | String c rest =>
        if Ascii.eqb c "-" then (true, rest)
        else if Ascii.eqb c "+" then (false, rest) else (false, s)
    | EmptyString => (false, s)
    end in
  if String.eqb body "0" then inl 0%Z
  else
    match durationLoop body 0 None "" with
    | Some n =>
        if (n <? 2 ^ 63)%Z then inl (if neg then (- n)%Z else n)
        else inr errRange
    | None => inr errSyntax
    end.

(** A standard library to run the engine with: it reads decimal integer
    literals, the boolean literals of [strconv.ParseBool], the float ["0"]
    and durations made of whole numbers with units, and answers on them as
    Go does; every other literal (other bases, underscores, fractions) it
    turns down. *)
#[global] Instance strconvLite : GoStd := {
  IntSize := 64;
  ParseInt := liteParseInt;
  ParseUint := liteParseUint;
  ParseBool := liteParseBool;
  ParseFloat := liteParseFloat;
  ParseDuration := liteParseDuration
}.

(** A program none of whose types implements [Decoder]. *)
Definition noMethods : rtype -> option Decoder := fun _ => None.

(** A source backed by a map, as [MockGetter] of the tests: a missing key
    reads as the empty string. *)
Fixpoint mapGet (m : list (string * string)) (key : string) : string :=
  match m with
  | [] => ""
  | (k, x) :: rest => if String.eqb k key then x else mapGet rest key
  end.

Definition MapGetter (tag : string) (Values : list (string * string))
  : TagValueGetter :=
  {| getterTag := {| TagName := tag |};
     Get := fun key _ => mapGet Values key |}.

Definition MockGetter := MapGetter "emaNgaT".

(** [mockSetter] of the tests: it takes strings only. *)
Definition mockSetter : TagValueSetter :=
  {| setterTag := {| TagName := "bl" |};
     Set_ := fun _ val _ =>
       match val with
       | VString _ => None
       | _ => Some (errorString "Received a non string")
       end |}.

(** A sink that takes everything. *)
Definition anySetter (tag : string) : TagValueSetter :=
  {| setterTag := {| TagName := tag |}; Set_ := fun _ _ _ => None |}.

Definition builtin (name : string) (k : reflect.Kind) : rtype :=
  TBasic (mkHdr "" name name) k.
Definition t_int : rtype := builtin "int" reflect.Int.
Definition t_string : rtype := builtin "string" reflect.String.
Definition t_bool : rtype := builtin "bool" reflect.Bool.
Definition t_Duration : rtype :=
  TBasic (mkHdr "time" "Duration" "time.Duration") reflect.Int64.
Definition t_ints : rtype := TSlice (mkHdr "" "" "[]int") t_int.
Definition t_map : rtype :=
  TBasic (mkHdr "" "" "map[string]string") reflect.Map.

Definition named (pkg name : string) : TypeHdr :=
  mkHdr pkg name (pkg ++ "." ++ name).

(** [&x], for an [x] of type [t]. *)
Definition addr (t : rtype) (x : rvalue) : iface :=
  Iface (PtrTo t) (VPtr (Some x)).

(** [Specification], [EmbeddedSpecification], [Ignored] and
    [SpecificationWithEmbedded] of the tests. *)
Definition crashCountField : StructField :=
  mkStructField "SystemsCrashCount" "" t_int
    [("emaNgaT", "crash.count"); ("required", "true")] false.

Definition handleField : StructField :=
  mkStructField "Handle" "" t_string
    [("emaNgaT", "handle"); ("default", "zero.cool")] false.

Definition Specification : rtype :=
  TStruct (named "tagconfig_test" "Specification")
    [ crashCountField; handleField ].

Definition relationshipField : StructField :=
  mkStructField "Relationship" "" t_string
    [("emaNgaT", "embed.relation.ship")] false.

Definition EmbeddedSpecification : rtype :=
  TStruct (named "tagconfig_test" "EmbeddedSpecification")
    [ relationshipField ].

Definition Ignored : rtype :=
  TStruct (named "tagconfig_test" "Ignored")
    [ mkStructField "Name" "" t_string
        [("emaNgaT", "name"); ("default", "nombre")] false ].

Definition SpecificationWithEmbedded : rtype :=
  TStruct (named "tagconfig_test" "SpecificationWithEmbedded")
    [ mkStructField "Relationship" "" t_string
        [("emaNgaT", "relation.ship"); ("default", "parent")] false;
      mkStructField "EmbeddedSpecification" "" EmbeddedSpecification [] true;
      mkStructField "Ignored" "" Ignored [("ignored", "true")] true ].



(** Records for the outbound direction: a field marked [ignored:"true"],
    and an unexported one. *)
Definition ignoredName : StructField :=
  mkStructField "Name" "" t_string [("bl", "name"); ("ignored", "true")] false.

Definition personIgnored : rtype :=
  TStruct (named "tagconfig_test" "personIgnored") [ ignoredName ].

Definition unexportedName : StructField :=
  mkStructField "name" "tagconfig_test" t_string [("bl", "name")] false.

Definition personUnexported : rtype :=
  TStruct (named "tagconfig_test" "personUnexported") [ unexportedName ].

(** A record with a pointer to a record as an ordinary, keyed field. *)
Definition innerPtr : StructField :=
  mkStructField "Inner" "" (PtrTo EmbeddedSpecification)
    [("emaNgaT", "inner")] false.

Definition SpecificationWithPointer : rtype :=
  TStruct (named "tagconfig_test" "SpecificationWithPointer") [ innerPtr ].

(** A record that embeds a pointer to a record, without a key and with
    one. *)
Definition embeddedPtr : StructField :=
  mkStructField "EmbeddedSpecification" "" (PtrTo EmbeddedSpecification)
    [] true.

Definition SpecificationEmbeddingPointer : rtype :=
  TStruct (named "tagconfig_test" "SpecificationEmbeddingPointer")
    [ embeddedPtr ].

Definition embeddedPtrKeyed : StructField :=
  mkStructField "EmbeddedSpecification" "" (PtrTo EmbeddedSpecification)
    [("bl", "embedded")] true.

Definition personEmbeddingPointer : rtype :=
  TStruct (named "tagconfig_test" "personEmbeddingPointer")
    [ embeddedPtrKeyed ].

Definition embeddedPtrSourced : StructField :=
  mkStructField "EmbeddedSpecification" "" (PtrTo EmbeddedSpecification)
    [("emaNgaT", "embedded")] true.

Definition SpecificationEmbeddingKeyedPointer : rtype :=
  TStruct (named "tagconfig_test" "SpecificationEmbeddingKeyedPointer")
    [ embeddedPtrSourced ].

(** A record with a duration and a list of integers. *)
Definition timeoutField : StructField :=
  mkStructField "Timeout" "" t_Duration [("emaNgaT", "timeout")] false.

Definition portsField : StructField :=
  mkStructField "Ports" "" t_ints [("emaNgaT", "ports")] false.

Definition Server : rtype :=
  TStruct (named "tagconfig_test" "Server") [ timeoutField; portsField ].

(** [Meta] and [person] of the tests of [PopulateExternalSource], and a
    person with a boolean. *)
Definition activityField : StructField :=
  mkStructField "Activity" "" t_string [("bl", "meta.activity")] false.
Definition itemField : StructField :=
  mkStructField "Item" "" t_string [("bl", "meta.item")] false.
Definition animalField : StructField :=
  mkStructField "Animal" "" t_string [] false.

Definition Meta : rtype :=
  TStruct (named "tagconfig_test" "Meta")
    [ activityField; itemField; animalField ].

Definition nameField : StructField :=
  mkStructField "Name" "" t_string [("bl", "name")] false.
Definition ageField : StructField :=
  mkStructField "Age" "" t_string [("bl", "age")] false.
Definition metaField : StructField :=
  mkStructField "Meta" "" Meta [] true.

Definition person : rtype :=
  TStruct (named "tagconfig_test" "person")
    [ nameField; ageField; metaField ].

Definition abidesField : StructField :=
  mkStructField "Abides" "" t_bool [("bl", "abides")] false.

Definition personAbides : rtype :=
  TStruct (named "tagconfig_test" "person") [ nameField; abidesField ].

(** ** [MustProcess], and the vocabulary of the further properties *)

(** What a call panicked with: [panic(err)] carries the error. *)
Inductive panicValue : Type :=
  | PanicValue (err : error).

(** [MustProcess(v, spec)]: the value it panics with (if it does), the
    record behind [spec] afterwards, and the calls made on [v]. *)
Definition MustProcess {std : GoStd} (methods : rtype -> option Decoder)
    (v : TagValueGetter) (spec : iface)
  : option panicValue * iface * list event :=
  match Process methods v spec with
  | (Some err, spec', ev) => (Some (PanicValue err), spec', ev)
  | (None, spec', ev) => (None, spec', ev)
  end.

(** The two errors [Process] makes while it walks a record: a required key
    without a value, and a conversion error, both about a key that is not
    empty; a conversion error also holds the raw value, not empty either. *)
Definition madeByProcess (e : error) : Prop :=
  (exists key, key <> "" /\ e = errRequired key)
  \/ (exists pe,
        e = ParseErrorPtr pe /\ FieldName pe <> "" /\ Value pe <> "").

(** A call on the source that asks for the key written on a field, for a
    field that is settable and not ignored. *)
Definition askedByKey (v : TagValueGetter) (e : event) : Prop :=
  match e with
  | CallGet key sf =>
      key = Tag_Get (Tag sf) (TagName v) /\ key <> ""
      /\ CanSet sf = true /\ Tag_Get (Tag sf) "ignored" <> "true"
  | CallSet _ _ _ => False
  end.

(** A call on the sink under the key written on a field, for an exported
    field that is not an embedded record. *)
Definition setByKey (w : TagValueSetter) (e : event) : Prop :=
  match e with
  | CallSet key _ sf =>
      key = Tag_Get (Tag sf) (TagName w) /\ key <> ""
      /\ CanInterface sf = true /\ isEmbeddedStruct sf = false
  | CallGet _ _ => False
  end.

(** A call on the sink that the sink answers with nil. *)
Definition accepted (w : TagValueSetter) (e : event) : Prop :=
  match e with
  | CallSet key x sf => Set_ w key x sf = None
  | CallGet _ _ => False
  end.

(** How [PopulateExternalSource] can end on a record, against the calls it
    made: with nil, every call having been accepted; with the error of its
    last call, every call before that having been accepted; or in the panic
    of [Value.Interface], every call made until then having been
    accepted. *)
Definition sinkVerdict (w : TagValueSetter) (a : option abort)
    (ev : list event) : Prop :=
  match a with
  | None => Forall (accepted w) ev
  | Some (Return err) =>
      exists ev0 key x sf,
        ev = ev0 ++ [CallSet key x sf]
        /\ Set_ w key x sf = Some err
        /\ Forall (accepted w) ev0
  | Some (Panic msg) => msg = panicInterface /\ Forall (accepted w) ev
  end.

(** No field that the traversal can reach carries a key under [tag]: none
    of the record's fields, and none in the records it embeds. *)
Fixpoint keyless (tag : string) (typ : rtype) : bool :=
  match typ with
  | TStruct _ fs =>
      forallb (fun sf =>
                 match sf with
                 | mkStructField _ _ ty tg anon =>
                     String.eqb (Tag_Get tg tag) ""
                     && (if anon && reflect.Kind_eqb (Kind_of ty) reflect.Struct
                         then keyless tag ty else true)
                 end) fs
  | _ => true
  end.

(** Every field whose value [PopulateExternalSource] takes is exported: the
    embedded records, down through them, and the fields with a key under
    [tag]. *)
Fixpoint readable (tag : string) (typ : rtype) : bool :=
  match typ with
  | TStruct _ fs =>
      forallb (fun sf =>
                 match sf with
                 | mkStructField _ pkg ty tg anon =>
                     if anon && reflect.Kind_eqb (Kind_of ty) reflect.Struct
                     then String.eqb pkg "" && readable tag ty
                     else String.eqb (Tag_Get tg tag) "" || String.eqb pkg ""
                 end) fs
  | _ => true
  end.

(** A record that embeds no record. *)
Definition flat (fs : list StructField) : bool :=
  forallb (fun sf => negb (isEmbeddedStruct sf)) fs.

(** The types the switch of [processField] has a case for. *)
Definition hasCase (typ : rtype) : bool :=
  match typ with
  | TBasic _ k => supportedKind k && negb (reflect.Kind_eqb k reflect.Slice)
  | TSlice _ _ => true
  | _ => false
  end.

(** One lookup for each settable, not ignored field with a key, in the
    order of the fields. *)
Definition getsOf (v : TagValueGetter) (fs : list StructField) : list event :=
  flat_map (fun sf =>
              if negb (CanSet sf) || String.eqb (Tag_Get (Tag sf) "ignored") "true"
              then []
              else if String.eqb (Tag_Get (Tag sf) (TagName v)) "" then []
              else [CallGet (Tag_Get (Tag sf) (TagName v)) sf]) fs.

(** One [Set] for each field with a key, with what the field holds, in the
    order of the fields. *)
Fixpoint setsOf (w : TagValueSetter) (fs : list StructField)
    (vals : list rvalue) : list event :=
  match fs, vals with
  | sf :: fs', f :: vals' =>
      (if String.eqb (Tag_Get (Tag sf) (TagName w)) "" then []
       else [CallSet (Tag_Get (Tag sf) (TagName w)) f sf])
      ++ setsOf w fs' vals'
  | _, _ => []
  end.

(** A type with a [Decode] method on its pointer that turns everything
    down, and a record with a field of it. *)
Definition t_Celsius : rtype :=
  TBasic (named "tagconfig_test" "Celsius") reflect.String.

Definition celsiusMethods : rtype -> option Decoder :=
  fun t =>
    if String.eqb (tString (hdr t)) "*tagconfig_test.Celsius"
    then Some (fun _ recv => (recv, Some (errorString "not a temperature")))
    else None.

Definition tempField : StructField :=
  mkStructField "Temp" "" t_Celsius [("emaNgaT", "temp")] false.

Definition Weather : rtype :=
  TStruct (named "tagconfig_test" "Weather") [ tempField ].

(** A list of lists of integers. *)
Definition t_intss : rtype := TSlice (mkHdr "" "" "[][]int") t_ints.

(** A record with [required] and [default] on its fields, and no key. *)
Definition Untagged : rtype :=
  TStruct (named "tagconfig_test" "Untagged")
    [ mkStructField "Port" "" t_int [("required", "true")] false;
      mkStructField "Host" "" t_string [("default", "localhost")] false;
      mkStructField "EmbeddedSpecification" "" EmbeddedSpecification [] true ].

(** * Properties *)

(** The tests of the repository, run on the model. *)
Example TestValidSpec :
  Process noMethods
    (MockGetter [("crash.count", "1507"); ("handle", "crash.override")])
    (addr Specification (Zero Specification))
  = (None,
     addr Specification (VStruct [VInt 1507; VString "crash.override"]),
     [CallGet "crash.count" crashCountField; CallGet "handle" handleField]).
Proof. reflexivity. Qed.

Example TestMissingRequired :
  fst (fst (Process noMethods (MockGetter [])
              (addr Specification (Zero Specification))))
  = Some (errorString "required key crash.count missing value").
Proof. reflexivity. Qed.

Example TestDefaultValue :
  fst (Process noMethods (MockGetter [("crash.count", "1507")])
         (addr Specification (Zero Specification)))
  = (None, addr Specification (VStruct [VInt 1507; VString "zero.cool"])).
Proof. reflexivity. Qed.

Example TestEmbedded :
  fst (Process noMethods (MockGetter [("embed.relation.ship", "child")])
         (addr SpecificationWithEmbedded (Zero SpecificationWithEmbedded)))
  = (None,
     addr SpecificationWithEmbedded
       (VStruct [VString "parent"; VStruct [VString "child"];
                 VStruct [VString ""]])).
Proof. reflexivity. Qed.

Example TestEmbeddedButIgnored :
  fst (Process noMethods (MockGetter [])
         (addr Ignored (VStruct [VString ""])))
  = (None, addr Ignored (VStruct [VString "nombre"])).
Proof. reflexivity. Qed.

Section Properties.

Context {std : GoStd} (methods : rtype -> option Decoder).

(** ** The loops *)

Lemma Process_Elem_struct (v : TagValueGetter) h fs vals :
  Process_Elem methods v (TStruct h fs) (VStruct vals)
  = let '(err, vals', ev) :=
      fieldsLoop (Process_field methods (Process_Elem methods v) v) fs vals in
    (err, VStruct vals', ev).
Proof. reflexivity. Qed.

Lemma Populate_Elem_struct (v : TagValueSetter) h fs vals :
  Populate_Elem v (TStruct h fs) (VStruct vals)
  = fieldsRange (Populate_field (Populate_Elem v) v) fs vals.
Proof. reflexivity. Qed.

(** The loop over a record goes through a prefix of its fields first, and
    through the rest only if the prefix raised no error. *)
Lemma fieldsLoop_app body pre post vpre vpost :
  length pre = length vpre ->
  fieldsLoop body (pre ++ post) (vpre ++ vpost)
  = match fieldsLoop body pre vpre with
    | (Some err, vpre', ev) => (Some err, vpre' ++ vpost, ev)
    | (None, vpre', ev) =>
        let '(err, vpost', ev') := fieldsLoop body post vpost in
        (err, vpre' ++ vpost', ev ++ ev')
    end.
Proof.
  revert vpre. induction pre as [|sf pre IH]; intros [|f vpre] Hlen;
    simpl in Hlen; try discriminate.
  - simpl. destruct (fieldsLoop body post vpost) as [[err vpost'] ev'].
    reflexivity.
  - injection Hlen as Hlen. simpl.
    destruct (body sf f) as [[[err|] f'] ev]; [reflexivity|].
    rewrite (IH vpre Hlen).
    destruct (fieldsLoop body pre vpre) as [[[err|] vpre'] ev1]; [reflexivity|].
    destruct (fieldsLoop body post vpost) as [[err vpost'] ev2].
    simpl. rewrite app_assoc. reflexivity.
Qed.

Lemma eqb_empty_false (s : string) : s <> "" -> String.eqb s "" = false.
Proof. intro H. apply String.eqb_neq. exact H. Qed.

(** The four rows of the table. *)
Lemma policy_table (resolved def req : string) :
  (resolved <> "" -> policy resolved def req = UseValue resolved)
  /\ (resolved = "" -> def <> "" -> policy resolved def req = UseValue def)
  /\ (resolved = "" -> def = "" -> req = "true" ->
      policy resolved def req = MissingRequired)
  /\ (resolved = "" -> def = "" -> req <> "true" ->
      policy resolved def req = LeaveField).
Proof.
  unfold policy. repeat split.
  - intros H. rewrite (eqb_empty_false _ H). reflexivity.
  - intros -> H. rewrite (eqb_empty_false _ H). reflexivity.
  - intros -> -> ->. reflexivity.
  - intros -> -> H. apply String.eqb_neq in H. simpl. rewrite H. reflexivity.
Qed.

(** The keyed half of an iteration is the policy followed by the
    assignment. *)
Lemma Process_keyed_policy (v : TagValueGetter) sf f :
  let key := Tag_Get (Tag sf) (TagName v) in
  key <> "" ->
  Process_keyed methods v sf f
  = match policy (Get v key sf) (Tag_Get (Tag sf) "default")
                 (Tag_Get (Tag sf) "required") with
    | UseValue raw =>
        match processField methods raw (Type_ sf) f with
        | (f', Some _) =>
            (Some (ParseErrorPtr
                     {| FieldName := key;
                        TypeName := tString (hdr (Type_ sf));
                        Value := raw |}), f', [CallGet key sf])
        | (f', None) => (None, f', [CallGet key sf])
        end
    | MissingRequired => (Some (errRequired key), f, [CallGet key sf])
    | LeaveField => (None, f, [CallGet key sf])
    end.
Proof.
  intros key Hkey. unfold Process_keyed, policy. fold key.
  rewrite (eqb_empty_false key Hkey).
  destruct (String.eqb (Get v key sf) "") eqn:Hval;
    destruct (String.eqb (Tag_Get (Tag sf) "default") "") eqn:Hdef; simpl;
    rewrite ?Hval, ?Hdef; simpl; try reflexivity.
  - destruct (String.eqb (Tag_Get (Tag sf) "required") "true"); reflexivity.
Qed.

(** An iteration on a field that passes the guard: the embedded record
    first, when the field is one, then the keyed half. *)
Lemma Process_field_open embedded (v : TagValueGetter) sf f :
  CanSet sf = true ->
  Tag_Get (Tag sf) "ignored" <> "true" ->
  Process_field methods embedded v sf f
  = match (if isEmbeddedStruct sf then embedded (Type_ sf) f
           else (None, f, [])) with
    | (Some err, f1, ev1) => (Some err, f1, ev1)
    | (None, f1, ev1) =>
        let '(err, f2, ev2) := Process_keyed methods v sf f1 in
        (err, f2, ev1 ++ ev2)
    end.
Proof.
  intros Hset Hign. unfold Process_field. rewrite Hset.
  apply String.eqb_neq in Hign. rewrite Hign. simpl.
  destruct (if isEmbeddedStruct sf then embedded (Type_ sf) f
            else (None, f, [])) as [[[err|] f1] ev1]; reflexivity.
Qed.

(** The loop of [Process] at a field it reaches: the fields before it
    raised no error, it passes the guard, and the recursion into it (when it
    is an embedded record) raised none. *)
Lemma Process_reaches_field
    (v : TagValueGetter) h hs pre sf post vpre f vpost vpre' ev0 f1 ev1 :
  let body := Process_field methods (Process_Elem methods v) v in
  let record vals :=
    Iface (TPtr h (TStruct hs (pre ++ sf :: post))) (VPtr (Some (VStruct vals))) in
  length pre = length vpre ->
  fieldsLoop body pre vpre = (None, vpre', ev0) ->
  CanSet sf = true ->
  Tag_Get (Tag sf) "ignored" <> "true" ->
  (if isEmbeddedStruct sf then Process_Elem methods v (Type_ sf) f
   else (None, f, [])) = (None, f1, ev1) ->
  Process methods v (record (vpre ++ f :: vpost))
  = match Process_keyed methods v sf f1 with
    | (Some err, f2, ev2) =>
        (Some err, record (vpre' ++ f2 :: vpost), ev0 ++ ev1 ++ ev2)
    | (None, f2, ev2) =>
        let '(err, vpost', ev3) := fieldsLoop body post vpost in
        (err, record (vpre' ++ f2 :: vpost'), (ev0 ++ ev1 ++ ev2) ++ ev3)
    end.
Proof.
  intros body record Hlen Hpre Hset Hign Hemb.
  unfold record at 1, Process. rewrite Process_Elem_struct. fold body.
  rewrite (fieldsLoop_app body pre (sf :: post) vpre (f :: vpost) Hlen), Hpre.
  cbn [fieldsLoop]. unfold body at 1.
  rewrite (Process_field_open _ v sf f Hset Hign), Hemb. fold body.
  destruct (Process_keyed methods v sf f1) as [[[err|] f2] ev2].
  - reflexivity.
  - destruct (fieldsLoop body post vpost) as [[err vpost'] ev3].
    unfold record. rewrite <- !app_assoc. reflexivity.
Qed.

(** ** C1: the default/required policy *)

(** C1. In [Process], every field with a non-empty lookup key that the loop
    reaches (it is settable, not ignored, the fields before it raised no
    error, and so did the recursion into it when it is an embedded record)
    is treated by the policy table: a non-empty value from [Get] is coerced
    into the field; an empty one is replaced by a non-empty [default], which
    is coerced instead; with both empty, [required:"true"] makes [Process]
    return the error whose message is [required key], the key, [missing
    value]; otherwise the field keeps its value and the loop goes on with
    the next field. *)
Theorem Process_default_required_policy
    (v : TagValueGetter) h hs pre sf post vpre f vpost vpre' ev0 f1 ev1 :
  let body := Process_field methods (Process_Elem methods v) v in
  let key := Tag_Get (Tag sf) (TagName v) in
  let record vals :=
    Iface (TPtr h (TStruct hs (pre ++ sf :: post))) (VPtr (Some (VStruct vals))) in
  let called := ev0 ++ ev1 ++ [CallGet key sf] in
  let continue f' :=
    let '(err, vpost', ev2) := fieldsLoop body post vpost in
    (err, record (vpre' ++ f' :: vpost'), called ++ ev2) in
  length pre = length vpre ->
  fieldsLoop body pre vpre = (None, vpre', ev0) ->
  CanSet sf = true ->
  Tag_Get (Tag sf) "ignored" <> "true" ->
  (if isEmbeddedStruct sf then Process_Elem methods v (Type_ sf) f
   else (None, f, [])) = (None, f1, ev1) ->
  key <> "" ->
  Process methods v (record (vpre ++ f :: vpost))
  = match policy (Get v key sf) (Tag_Get (Tag sf) "default")
                 (Tag_Get (Tag sf) "required") with
    | UseValue raw =>
        match processField methods raw (Type_ sf) f1 with
        | (f', Some _) =>
            (Some (ParseErrorPtr
                     {| FieldName := key;
                        TypeName := tString (hdr (Type_ sf));
                        Value := raw |}),
             record (vpre' ++ f' :: vpost), called)
        | (f', None) => continue f'
        end
    | MissingRequired =>
        (Some (errorString ("required key " ++ key ++ " missing value")),
         record (vpre' ++ f1 :: vpost), called)
    | LeaveField => continue f1
    end.
Proof.
  intros body key record called continue Hlen Hpre Hset Hign Hemb Hkey.
  unfold record.
  rewrite (Process_reaches_field v h hs pre sf post vpre f vpost vpre' ev0 f1
             ev1 Hlen Hpre Hset Hign Hemb).
  rewrite (Process_keyed_policy v sf f1 Hkey). fold key. fold body.
  unfold continue, called.
  destruct (policy (Get v key sf) (Tag_Get (Tag sf) "default")
                   (Tag_Get (Tag sf) "required")) as [raw| |].
  - destruct (processField methods raw (Type_ sf) f1) as [f' [e|]].
    + reflexivity.
    + destruct (fieldsLoop body post vpost) as [[err vpost'] ev2].
      rewrite <- !app_assoc. reflexivity.
  - reflexivity.
  - destruct (fieldsLoop body post vpost) as [[err vpost'] ev2].
    rewrite <- !app_assoc. reflexivity.
Qed.

(** ** C2: what is not a pointer to a record is turned down at once *)

(** C2. When [spec] is not a pointer, or is a pointer to something that is
    not a struct (a nil pointer included), [Process] and
    [PopulateExternalSource] both return [ErrInvalidSpecification]; [spec]
    is as it was and no call was made on the source or the sink. *)
Theorem invalid_specification_refused
    (v : TagValueGetter) (w : TagValueSetter) (spec : iface) :
  ValueOf_Kind spec <> reflect.Ptr \/ Elem_Kind spec <> reflect.Struct ->
  Process methods v spec = (Some ErrInvalidSpecification, spec, [])
  /\ PopulateExternalSource w spec = (Some (Return ErrInvalidSpecification), []).
Proof.
  intros H.
  assert (Hk : Elem_Kind spec <> reflect.Struct).
  { destruct H as [H|H]; [|exact H].
    destruct spec as [|[] val]; simpl in *; try discriminate.
    exfalso. apply H. reflexivity. }
  clear H.
  destruct spec as [|[? ?|? elem|? ?|? ?] val]; try (split; reflexivity).
  destruct val as [| | | | |[s|]| | | |]; try (split; reflexivity).
  simpl in Hk.
  destruct elem as [? k|? ?|? ?|? ?]; try (split; reflexivity).
  - destruct k; try (split; reflexivity). exfalso. apply Hk. reflexivity.
  - exfalso. apply Hk. reflexivity.
Qed.

(** ** C3: an embedded record that carries a key of its own *)

(** [processField] without the recursion hidden in its fixpoint. *)
Lemma processField_eq value typ field :
  processField methods value typ field
  = match decoderFrom methods typ with
    | Some decoder => Decode decoder value field
    | None =>
        match typ with
        | TPtr _ elem =>
            let pointee := match field with
                           | VPtr (Some x) => x
                           | _ => Zero elem
                           end in
            let (x, err) :=
              assignByKind (processField methods) value elem pointee in
            (VPtr (Some x), err)
        | _ => assignByKind (processField methods) value typ field
        end
    end.
Proof. destruct typ; reflexivity. Qed.

(** No case of the switch is for structs. *)
Lemma assignByKind_struct rec value typ field :
  Kind_of typ = reflect.Struct ->
  assignByKind rec value typ field = (field, None).
Proof.
  destruct typ as [? k| | |]; simpl; try discriminate; [|reflexivity].
  intros ->. reflexivity.
Qed.


(** ** C4: the guard of [Process] *)

(** A field that is unexported, or marked [ignored:"true"], goes through an
    iteration of [Process] untouched: no lookup, no recursion, no change. *)
Lemma Process_field_guard emb (v : TagValueGetter) sf f :
  CanSet sf = false \/ Tag_Get (Tag sf) "ignored" = "true" ->
  Process_field methods emb v sf f = (None, f, []).
Proof.
  intros [H|H]; unfold Process_field; rewrite H.
  - reflexivity.
  - rewrite String.eqb_refl, orb_true_r. reflexivity.
Qed.

(** Whatever the loop of [Process] does, and however it ends, a field that
    is unexported or marked [ignored:"true"] holds afterwards what it held
    before. *)
Lemma Process_guarded_field_untouched emb (v : TagValueGetter)
    fs vals err vals' ev i sf f :
  fieldsLoop (Process_field methods emb v) fs vals = (err, vals', ev) ->
  nth_error fs i = Some sf ->
  nth_error vals i = Some f ->
  CanSet sf = false \/ Tag_Get (Tag sf) "ignored" = "true" ->
  nth_error vals' i = Some f.
Proof.
  revert vals err vals' ev i.
  induction fs as [|sf0 fs IH]; intros [|f0 vals] err vals' ev i Hloop Hsf Hf Hg;
    try (destruct i; discriminate).
  simpl in Hloop. destruct i as [|i]; simpl in Hsf, Hf.
  - injection Hsf as ->. injection Hf as ->.
    rewrite (Process_field_guard emb v sf f Hg) in Hloop.
    destruct (fieldsLoop (Process_field methods emb v) fs vals)
      as [[err1 vals1] ev1].
    injection Hloop as _ <- _. reflexivity.
  - destruct (Process_field methods emb v sf0 f0) as [[[e|] f0'] ev0].
    + injection Hloop as _ <- _. exact Hf.
    + destruct (fieldsLoop (Process_field methods emb v) fs vals)
        as [[err1 vals1] ev1] eqn:Hrest.
      injection Hloop as _ <- _. simpl.
      exact (IH vals err1 vals1 ev1 i Hrest Hsf Hf Hg).
Qed.

(** ** C5: slices *)

Lemma Split_comma_nonempty s : Split_comma s <> [].
Proof.
  destruct s as [|c rest]; simpl; [discriminate|].
  destruct (Ascii.eqb c ","); [discriminate|].
  destruct (Split_comma rest); discriminate.
Qed.

(** One piece more than there are commas. *)
Lemma Split_comma_length s : length (Split_comma s) = S (countCommas s).
Proof.
  induction s as [|c rest IH]; simpl; [reflexivity|].
  pose proof (Split_comma_nonempty rest) as Hne.
  destruct (Ascii.eqb c ","); simpl.
  - rewrite IH. reflexivity.
  - destruct (Split_comma rest) as [|piece more]; [contradiction|].
    simpl in *. exact IH.
Qed.

(** No piece holds a comma. *)
Lemma Split_comma_pieces s : Forall (fun p => countCommas p = 0) (Split_comma s).
Proof.
  induction s as [|c rest IH]; simpl.
  - constructor; [reflexivity|constructor].
  - pose proof (Split_comma_nonempty rest) as Hne.
    destruct (Ascii.eqb c ",") eqn:Hc.
    + constructor; [reflexivity|exact IH].
    + destruct (Split_comma rest) as [|piece more]; [contradiction|].
      inversion IH as [|? ? Hp Hm]; subst.
      constructor; [simpl; rewrite Hc; exact Hp|exact Hm].
Qed.

(** Putting the commas back between the pieces gives the string again:
    every comma separates, none is escaped. *)
Lemma Split_comma_join s : String.concat "," (Split_comma s) = s.
Proof.
  induction s as [|c rest IH]; simpl; [reflexivity|].
  pose proof (Split_comma_nonempty rest) as Hne.
  destruct (Split_comma rest) as [|piece more]; [contradiction|].
  destruct (Ascii.eqb c ",") eqn:Hc.
  - apply Ascii.eqb_eq in Hc. subst c.
    simpl in *. rewrite IH. reflexivity.
  - simpl in *. destruct more; simpl in *; rewrite <- IH; reflexivity.
Qed.

Lemma processElems_ok pf zero vals sl :
  processElems pf zero vals = inl sl ->
  Forall2 (fun val x => pf val zero = (x, None)) vals sl.
Proof.
  revert sl. induction vals as [|val rest IH]; intros sl H; simpl in H.
  - injection H as <-. constructor.
  - destruct (pf val zero) as [x [err|]] eqn:Hpf; [discriminate|].
    destruct (processElems pf zero rest) as [xs|err]; [|discriminate].
    injection H as <-. constructor; [exact Hpf|apply IH; reflexivity].
Qed.

Lemma processElems_err pf zero vals err :
  processElems pf zero vals = inr err ->
  exists ok piece rest,
    vals = ok ++ piece :: rest
    /\ Forall (fun p => snd (pf p zero) = None) ok
    /\ snd (pf piece zero) = Some err.
Proof.
  induction vals as [|val rest IH]; intros H; simpl in H; [discriminate|].
  destruct (pf val zero) as [x [e|]] eqn:Hpf.
  - injection H as <-. exists [], val, rest.
    split; [reflexivity|]. split; [constructor|]. rewrite Hpf. reflexivity.
  - destruct (processElems pf zero rest) as [xs|e]; [discriminate|].
    injection H as <-.
    destruct (IH eq_refl) as (ok & piece & rest' & -> & Hok & Hbad).
    exists (val :: ok), piece, rest'.
    split; [reflexivity|]. split; [|exact Hbad].
    constructor; [rewrite Hpf; reflexivity|exact Hok].
Qed.

(** C5. For a field of a slice type (without a custom Decoder of its own),
    [processField] cuts the raw string at every comma (the pieces, joined
    with commas, are the string again, and no piece holds a comma: nothing
    escapes a comma), coerces each piece as an element, starting from the
    zero value of a fresh slice, and on success assigns a slice with as many
    elements as there are pieces, one more than there are commas.  When an
    element fails, the error is that of the first failing piece and the
    field holds what it held before. *)
Theorem processField_slice (value : string) h elem (field : rvalue) :
  decoderFrom methods (TSlice h elem) = None ->
  let pieces := Split_comma value in
  String.concat "," pieces = value
  /\ Forall (fun p => countCommas p = 0) pieces
  /\ length pieces = S (countCommas value)
  /\ match processField methods value (TSlice h elem) field with
     | (field', None) =>
         exists sl,
           field' = VSlice sl
           /\ length sl = length pieces
           /\ Forall2 (fun piece x =>
                         processField methods piece elem (Zero elem)
                         = (x, None)) pieces sl
     | (field', Some err) =>
         field' = field
         /\ exists ok piece rest,
              pieces = ok ++ piece :: rest
              /\ Forall (fun p =>
                           snd (processField methods p elem (Zero elem))
                           = None) ok
              /\ snd (processField methods piece elem (Zero elem)) = Some err
     end.
Proof.
  intros Hdec pieces.
  split; [apply Split_comma_join|].
  split; [apply Split_comma_pieces|].
  split; [apply Split_comma_length|].
  rewrite processField_eq, Hdec. cbn [assignByKind]. fold pieces.
  destruct (processElems (fun val x => processField methods val elem x)
              (Zero elem) pieces) as [sl|err] eqn:Hloop.
  - exists sl. split; [reflexivity|].
    pose proof (processElems_ok _ _ _ _ Hloop) as Hall.
    split; [symmetry; exact (Forall2_length Hall)|exact Hall].
  - split; [reflexivity|]. exact (processElems_err _ _ _ _ Hloop).
Qed.

(** ** C7: the conversion error *)

(** C7, as the code has it.  When the coercion of a reached field fails
    (no custom Decoder being involved), [Process] returns a [ParseError]
    whose [FieldName] is the field's lookup key, whose [TypeName] is the
    string of the field's type and whose [Value] is the raw string that
    was tried (the default when it stood in); the loop stops there. *)
Theorem Process_conversion_error
    (v : TagValueGetter) h hs pre sf post vpre f vpost vpre' ev0 f1 ev1
    raw f' e :
  let body := Process_field methods (Process_Elem methods v) v in
  let key := Tag_Get (Tag sf) (TagName v) in
  let record vals :=
    Iface (TPtr h (TStruct hs (pre ++ sf :: post))) (VPtr (Some (VStruct vals))) in
  length pre = length vpre ->
  fieldsLoop body pre vpre = (None, vpre', ev0) ->
  CanSet sf = true ->
  Tag_Get (Tag sf) "ignored" <> "true" ->
  (if isEmbeddedStruct sf then Process_Elem methods v (Type_ sf) f
   else (None, f, [])) = (None, f1, ev1) ->
  key <> "" ->
  decoderFrom methods (Type_ sf) = None ->
  policy (Get v key sf) (Tag_Get (Tag sf) "default")
         (Tag_Get (Tag sf) "required") = UseValue raw ->
  processField methods raw (Type_ sf) f1 = (f', Some e) ->
  Process methods v (record (vpre ++ f :: vpost))
  = (Some (ParseErrorPtr
             {| FieldName := key;
                TypeName := tString (hdr (Type_ sf));
                Value := raw |}),
     record (vpre' ++ f' :: vpost),
     ev0 ++ ev1 ++ [CallGet key sf]).
Proof.
  intros body key record Hlen Hpre Hset Hign Hemb Hkey _ Hpol Hfail.
  unfold record.
  rewrite (Process_reaches_field v h hs pre sf post vpre f vpost vpre' ev0 f1
             ev1 Hlen Hpre Hset Hign Hemb).
  rewrite (Process_keyed_policy v sf f1 Hkey). fold key.
  rewrite Hpol, Hfail. reflexivity.
Qed.

(** ** C8: signed integers and durations *)

(** C8. For a field of a signed integer kind (without a custom Decoder),
    [processField] parses the raw string with [strconv.ParseInt] in base 0
    (the base is read off the literal) at the bit size of the field's type,
    and stores the result; except for the type of kind [Int64] named
    [Duration] in package [time], whose raw string goes to
    [time.ParseDuration] and whose field receives the duration as its count
    of nanoseconds.  A parse error is returned and leaves the field as it
    was. *)
Theorem processField_signed (value : string) h k (field : rvalue) :
  let typ := TBasic h k in
  signedKind k = true ->
  decoderFrom methods typ = None ->
  (isDuration typ = true <->
     k = reflect.Int64 /\ tPkgPath h = "time" /\ tName h = "Duration")
  /\ (isDuration typ = true ->
        processField methods value typ field
        = match ParseDuration value with
          | inl d => (VInt d, None)
          | inr err => (field, Some err)
          end)
  /\ (isDuration typ = false ->
        processField methods value typ field
        = match ParseInt value 0 (Bits typ) with
          | inl val => (VInt val, None)
          | inr err => (field, Some err)
          end)
  /\ Bits typ = match k with
                | reflect.Int8 => 8
                | reflect.Int16 => 16
                | reflect.Int32 => 32
                | reflect.Int64 => 64
                | _ => IntSize
                end%Z.
Proof.
  intros typ Hk Hdec. split; [|split; [|split]].
  - unfold isDuration, typ. simpl. rewrite !andb_true_iff.
    rewrite !String.eqb_eq. split.
    + intros [[Hkind Hp] Hn]. split; [|split; assumption].
      destruct k; simpl in Hkind; try discriminate. reflexivity.
    + intros (-> & Hp & Hn). split; [split; [reflexivity|]|]; assumption.
  - intros Hd. rewrite processField_eq, Hdec.
    destruct k; try discriminate Hk; unfold typ in *; cbn [assignByKind];
      rewrite Hd; destruct (ParseDuration value); reflexivity.
  - intros Hd. rewrite processField_eq, Hdec.
    destruct k; try discriminate Hk; unfold typ in *; cbn [assignByKind];
      rewrite Hd; destruct (ParseInt value 0 _); reflexivity.
  - destruct k; try discriminate Hk; reflexivity.
Qed.

(** ** C9: the kinds without a case *)

(** C9, as the code has it.  For a field without a custom Decoder,
    [processField] returns no error when the kind it switches on has no
    case.  A field that is neither a pointer nor an interface keeps its
    value.  (A field of kind [Interface] is left out: there the Decoder is
    looked for on the value the field holds, and a held Decoder is called
    and may fail.)  A pointer field is unwrapped before the switch, which
    allocates: the field ends up non-nil, pointing to what it pointed to
    before, or to a fresh zero value when it was nil. *)
Theorem unsupported_kind_fallback (value : string) typ (field : rvalue) :
  decoderFrom methods typ = None ->
  (Kind_of typ <> reflect.Ptr ->
   Kind_of typ <> reflect.Interface ->
   supportedKind (Kind_of typ) = false ->
   processField methods value typ field = (field, None))
  /\ (forall h elem,
        typ = TPtr h elem ->
        supportedKind (Kind_of elem) = false ->
        processField methods value typ field
        = (VPtr (Some match field with
                      | VPtr (Some x) => x
                      | _ => Zero elem
                      end), None)).
Proof.
  intros Hdec.
  assert (Hsw : forall rec t x,
             supportedKind (Kind_of t) = false ->
             assignByKind rec value t x = (x, None)).
  { intros rec [? k|? ?|? ?|? ?] x Hs; simpl in Hs; try discriminate;
      try reflexivity.
    destruct k; try discriminate Hs; reflexivity. }
  split.
  - intros Hptr _ Hs. rewrite processField_eq, Hdec.
    destruct typ as [? k|? ?|? ?|? ?]; try (apply Hsw; exact Hs).
    exfalso. apply Hptr. reflexivity.
  - intros h elem -> Hs. rewrite processField_eq, Hdec.
    cbv zeta. rewrite (Hsw _ elem _ Hs). reflexivity.
Qed.

(** ** C10: an embedded pointer to a record *)

(** An iteration of [Process] on a field that is not an embedded record
    is the guard and the keyed half. *)
Lemma Process_field_ordinary emb (v : TagValueGetter) sf f :
  isEmbeddedStruct sf = false ->
  Process_field methods emb v sf f
  = if negb (CanSet sf) || String.eqb (Tag_Get (Tag sf) "ignored") "true"
    then (None, f, [])
    else Process_keyed methods v sf f.
Proof.
  intros Hemb. unfold Process_field. rewrite Hemb.
  destruct (negb (CanSet sf) || String.eqb (Tag_Get (Tag sf) "ignored") "true");
    [reflexivity|].
  destruct (Process_keyed methods v sf f) as [[err f'] ev]. reflexivity.
Qed.

Lemma fieldsRange_app body pre post vpre vpost :
  length pre = length vpre ->
  fieldsRange body (pre ++ post) (vpre ++ vpost)
  = match fieldsRange body pre vpre with
    | (Some a, ev) => (Some a, ev)
    | (None, ev) =>
        let '(a, ev') := fieldsRange body post vpost in (a, ev ++ ev')
    end.
Proof.
  revert vpre. induction pre as [|sf pre IH]; intros [|f vpre] Hlen;
    simpl in Hlen; try discriminate.
  - simpl. destruct (fieldsRange body post vpost) as [a ev']. reflexivity.
  - injection Hlen as Hlen. simpl.
    destruct (body sf f) as [[a|] ev]; [reflexivity|].
    rewrite (IH vpre Hlen).
    destruct (fieldsRange body pre vpre) as [[a|] ev1]; [reflexivity|].
    destruct (fieldsRange body post vpost) as [a ev2].
    rewrite app_assoc. reflexivity.
Qed.

(** C10. Only the anonymous fields of kind struct are recursed into.  Take
    a record and any field of it that is not anonymous, or whose kind is not
    struct (an embedded pointer to a record, say), reached by the loop
    without an earlier error.  [Process] does with it what it does with an
    ordinary field and nothing else: skipped when not settable or ignored,
    skipped without a key of its own, and with a key looked up under that
    key, put through the default/required policy and coerced by
    [processField]; no field behind it is asked for.
    [PopulateExternalSource] makes no call for it without a key of its
    own, and with one hands the sink the field itself (the pointer, for a
    pointer) in one [Set] under that key, when the field is exported, and
    panics in [Value.Interface] when it is not. *)
Theorem only_embedded_structs_recursed
    (v : TagValueGetter) (w : TagValueSetter) h hs pre sf post vpre f vpost :
  let record vals :=
    Iface (TPtr h (TStruct hs (pre ++ sf :: post))) (VPtr (Some (VStruct vals))) in
  Anonymous sf = false \/ Kind_of (Type_ sf) <> reflect.Struct ->
  length pre = length vpre ->
  (forall vpre' ev0,
     let body := Process_field methods (Process_Elem methods v) v in
     let key := Tag_Get (Tag sf) (TagName v) in
     let continue f' called :=
       let '(err, vpost', ev2) := fieldsLoop body post vpost in
       (err, record (vpre' ++ f' :: vpost'), called ++ ev2) in
     fieldsLoop body pre vpre = (None, vpre', ev0) ->
     Process methods v (record (vpre ++ f :: vpost))
     = if negb (CanSet sf) || String.eqb (Tag_Get (Tag sf) "ignored") "true"
       then continue f ev0
       else if String.eqb key "" then continue f ev0
       else
         match policy (Get v key sf) (Tag_Get (Tag sf) "default")
                      (Tag_Get (Tag sf) "required") with
         | UseValue raw =>
             match processField methods raw (Type_ sf) f with
             | (f', Some _) =>
                 (Some (ParseErrorPtr
                          {| FieldName := key;
                             TypeName := tString (hdr (Type_ sf));
                             Value := raw |}),
                  record (vpre' ++ f' :: vpost), ev0 ++ [CallGet key sf])
             | (f', None) => continue f' (ev0 ++ [CallGet key sf])
             end
         | MissingRequired =>
             (Some (errorString ("required key " ++ key ++ " missing value")),
              record (vpre' ++ f :: vpost), ev0 ++ [CallGet key sf])
         | LeaveField => continue f (ev0 ++ [CallGet key sf])
         end)
  /\ (forall ev0,
        let body := Populate_field (Populate_Elem w) w in
        let t := Tag_Get (Tag sf) (TagName w) in
        let continue called :=
          let '(a, ev2) := fieldsRange body post vpost in (a, called ++ ev2) in
        fieldsRange body pre vpre = (None, ev0) ->
        PopulateExternalSource w (record (vpre ++ f :: vpost))
        = if String.eqb t "" then continue ev0
          else if CanInterface sf then
            match Set_ w t f sf with
            | Some err => (Some (Return err), ev0 ++ [CallSet t f sf])
            | None => continue (ev0 ++ [CallSet t f sf])
            end
          else (Some (Panic panicInterface), ev0)).
Proof.
  intros record Hns Hlen.
  assert (Hemb : isEmbeddedStruct sf = false).
  { unfold isEmbeddedStruct. destruct Hns as [->|Hk]; [reflexivity|].
    destruct (Anonymous sf); [|reflexivity]. simpl.
    destruct (Kind_of (Type_ sf)); try reflexivity.
    exfalso. apply Hk. reflexivity. }
  split.
  - intros vpre' ev0 body key continue Hpre.
    unfold record at 1, Process. rewrite Process_Elem_struct. fold body.
    rewrite (fieldsLoop_app body pre (sf :: post) vpre (f :: vpost) Hlen), Hpre.
    cbn [fieldsLoop]. unfold body at 1.
    rewrite (Process_field_ordinary _ v sf f Hemb). fold body.
    unfold continue.
    destruct (negb (CanSet sf) || String.eqb (Tag_Get (Tag sf) "ignored") "true").
    { destruct (fieldsLoop body post vpost) as [[err vpost'] ev2]. reflexivity. }
    destruct (String.eqb key "") eqn:Hkey.
    { unfold Process_keyed. fold key. rewrite Hkey.
      destruct (fieldsLoop body post vpost) as [[err vpost'] ev2]. reflexivity. }
    apply String.eqb_neq in Hkey.
    rewrite (Process_keyed_policy v sf f Hkey). fold key.
    destruct (policy (Get v key sf) (Tag_Get (Tag sf) "default")
                     (Tag_Get (Tag sf) "required")) as [raw| |].
    + destruct (processField methods raw (Type_ sf) f) as [f' [e|]].
      * reflexivity.
      * destruct (fieldsLoop body post vpost) as [[err vpost'] ev2].
        unfold record. rewrite <- !app_assoc. reflexivity.
    + reflexivity.
    + destruct (fieldsLoop body post vpost) as [[err vpost'] ev2].
      unfold record. rewrite <- !app_assoc. reflexivity.
  - intros ev0 body t continue Hpre.
    unfold record, PopulateExternalSource. rewrite Populate_Elem_struct.
    fold body.
    rewrite (fieldsRange_app body pre (sf :: post) vpre (f :: vpost) Hlen), Hpre.
    cbn [fieldsRange]. unfold body at 1, Populate_field. rewrite Hemb.
    fold t. fold body. unfold continue.
    destruct (String.eqb t ""); simpl.
    { destruct (fieldsRange body post vpost) as [a ev2]. reflexivity. }
    destruct (CanInterface sf); [|rewrite app_nil_r; reflexivity].
    destruct (Set_ w t f sf) as [err|]; [reflexivity|].
    destruct (fieldsRange body post vpost) as [a ev2].
    rewrite <- !app_assoc. reflexivity.
Qed.

(** ** C6: from a source to a sink *)

(** When the loop of [Process] ends without error, every field went
    through its iteration without error, and holds what the iteration
    left. *)
Lemma fieldsLoop_nth body fs vals vals' ev i sf f :
  fieldsLoop body fs vals = (None, vals', ev) ->
  nth_error fs i = Some sf ->
  nth_error vals i = Some f ->
  exists f' evi, body sf f = (None, f', evi) /\ nth_error vals' i = Some f'.
Proof.
  revert vals vals' ev i.
  induction fs as [|sf0 fs IH]; intros [|f0 vals] vals' ev i Hloop Hsf Hf;
    try (destruct i; discriminate).
  simpl in Hloop.
  destruct (body sf0 f0) as [[[err|] f0'] ev0] eqn:Hbody; [discriminate|].
  destruct (fieldsLoop body fs vals) as [[err vals''] ev1] eqn:Hrest.
  injection Hloop as -> <- <-.
  destruct i as [|i]; simpl in *.
  - injection Hsf as <-. injection Hf as <-.
    exists f0', ev0. split; [exact Hbody|reflexivity].
  - exact (IH vals vals'' ev1 i Hrest Hsf Hf).
Qed.

(** When the loop of [PopulateExternalSource] ends without error, the calls
    of every iteration are among its calls. *)
Lemma fieldsRange_nth body fs vals ev i sf f :
  fieldsRange body fs vals = (None, ev) ->
  nth_error fs i = Some sf ->
  nth_error vals i = Some f ->
  exists evi, body sf f = (None, evi) /\ incl evi ev.
Proof.
  revert vals ev i.
  induction fs as [|sf0 fs IH]; intros [|f0 vals] ev i Hloop Hsf Hf;
    try (destruct i; discriminate).
  simpl in Hloop.
  destruct (body sf0 f0) as [[a|] ev0] eqn:Hbody; [discriminate|].
  destruct (fieldsRange body fs vals) as [a ev1] eqn:Hrest.
  injection Hloop as -> <-.
  destruct i as [|i]; simpl in *.
  - injection Hsf as <-. injection Hf as <-.
    exists ev0. split; [exact Hbody|apply incl_appl, incl_refl].
  - destruct (IH vals ev1 i Hrest Hsf Hf) as (evi & Hb & Hin).
    exists evi. split; [exact Hb|apply incl_appr, Hin].
Qed.

(** C6, as the code has it.  Take a record, a source and a sink under the
    same tag name, and a keyed field of the record that is settable, not
    ignored and not an embedded record.  When [Process] from the source and
    then [PopulateExternalSource] into the sink both return nil, the sink
    was called with [Set] under the field's key with what the field holds
    after [Process].  For a field of kind string (without a custom Decoder)
    whose key the source answers with a non-empty value, that is the very
    string the source gave. *)
Theorem roundtrip_string_fields
    (v : TagValueGetter) (w : TagValueSetter) h hs fs vals i sf f
    spec' ev ev' :
  let spec := Iface (TPtr h (TStruct hs fs)) (VPtr (Some (VStruct vals))) in
  let key := Tag_Get (Tag sf) (TagName v) in
  TagName w = TagName v ->
  nth_error fs i = Some sf ->
  nth_error vals i = Some f ->
  CanSet sf = true ->
  Tag_Get (Tag sf) "ignored" <> "true" ->
  isEmbeddedStruct sf = false ->
  key <> "" ->
  Process methods v spec = (None, spec', ev) ->
  PopulateExternalSource w spec' = (None, ev') ->
  exists vals' f',
    spec' = Iface (TPtr h (TStruct hs fs)) (VPtr (Some (VStruct vals')))
    /\ nth_error vals' i = Some f'
    /\ In (CallSet key f' sf) ev'
    /\ (Kind_of (Type_ sf) = reflect.String ->
        decoderFrom methods (Type_ sf) = None ->
        Get v key sf <> "" ->
        f' = VString (Get v key sf)).
Proof.
  intros spec key Htag Hsf Hf Hset Hign Hemb Hkey Hproc Hpop.
  unfold spec, Process in Hproc. rewrite Process_Elem_struct in Hproc.
  destruct (fieldsLoop (Process_field methods (Process_Elem methods v) v)
              fs vals) as [[err vals'] ev0] eqn:Hloop.
  injection Hproc as -> <- <-.
  destruct (fieldsLoop_nth _ _ _ _ _ _ _ _ Hloop Hsf Hf)
    as (f' & evi & Hbody & Hf').
  exists vals', f'. split; [reflexivity|]. split; [exact Hf'|]. split.
  - unfold PopulateExternalSource in Hpop.
    rewrite Populate_Elem_struct in Hpop.
    destruct (fieldsRange_nth _ _ _ _ _ _ _ Hpop Hsf Hf') as (evj & Hb & Hin).
    apply Hin. unfold Populate_field in Hb.
    rewrite Hemb, Htag in Hb. fold key in Hb.
    rewrite (eqb_empty_false _ Hkey) in Hb. simpl in Hb.
    unfold CanInterface in Hb. unfold CanSet in Hset. rewrite Hset in Hb.
    destruct (Set_ w key f' sf); [discriminate|].
    injection Hb as <-. left. reflexivity.
  - intros Hkind Hdec Hval.
    rewrite (Process_field_open _ v sf f Hset Hign), Hemb in Hbody.
    rewrite (Process_keyed_policy v sf f Hkey) in Hbody. fold key in Hbody.
    unfold policy in Hbody. rewrite (eqb_empty_false _ Hval) in Hbody.
    simpl in Hbody. rewrite processField_eq, Hdec in Hbody.
    destruct (Type_ sf) as [ht k|? ?|? ?|? ?] eqn:Hty; try discriminate Hkind.
    simpl in Hkind. subst k. simpl in Hbody. injection Hbody as <- _.
    reflexivity.
Qed.

End Properties.

(** * The engine at work *)

(** [TestPopulateExternalSourceSuccessful], third case: the calls on the
    sink, the embedded [Meta] after the fields before it. *)
Example TestPopulateExternalSourceSuccessful :
  PopulateExternalSource mockSetter
    (addr person
       (VStruct [VString "The dude"; VString "40";
                 VStruct [VString "bowling"; VString "rug"; VString ""]]))
  = (None,
     [CallSet "name" (VString "The dude") nameField;
      CallSet "age" (VString "40") ageField;
      CallSet "meta.activity" (VString "bowling") activityField;
      CallSet "meta.item" (VString "rug") itemField]).
Proof. reflexivity. Qed.

(** [TestPopulateExternalSourceError]: a sink that refuses a boolean, a
    record passed by value, and a string. *)
Example TestPopulateExternalSourceError :
  fst (PopulateExternalSource mockSetter
         (addr personAbides (VStruct [VString "His Dudeness"; VBool true])))
  = Some (Return (errorString "Received a non string"))
  /\ PopulateExternalSource mockSetter
       (Iface personAbides (VStruct [VString "His Dudeness"; VBool true]))
     = (Some (Return ErrInvalidSpecification), [])
  /\ PopulateExternalSource mockSetter
       (Iface t_string (VString "what do you think this is?"))
     = (Some (Return ErrInvalidSpecification), []).
Proof. repeat split; reflexivity. Qed.

(** A duration and a list: ["1,2,3"] fills the list with three integers,
    and ["1,x,3"] fails the field, which keeps the list it had. *)
Example Process_Server :
  fst (Process noMethods (MockGetter [("timeout", "5s"); ("ports", "1,2,3")])
         (addr Server (VStruct [VInt 0; VNilSlice])))
  = (None,
     addr Server (VStruct [VInt 5000000000; VSlice [VInt 1; VInt 2; VInt 3]]))
  /\ fst (Process noMethods (MockGetter [("ports", "1,x,3")])
            (addr Server (VStruct [VInt 0; VSlice [VInt 80]])))
     = (Some (ParseErrorPtr
                {| FieldName := "ports"; TypeName := "[]int";
                   Value := "1,x,3" |}),
        addr Server (VStruct [VInt 0; VSlice [VInt 80]])).
Proof. split; reflexivity. Qed.

(** C1 at [Specification], row by row: the count comes from the source
    and the handle from its default; without a count, which is required,
    [Process] returns the error that names [crash.count]; and the
    relationship of [EmbeddedSpecification], neither given nor required,
    keeps what it held. *)
Lemma Process_default_required_policy_witness :
  Process noMethods (MockGetter [("crash.count", "1507")])
    (addr Specification (VStruct [VInt 0; VString ""]))
  = (None, addr Specification (VStruct [VInt 1507; VString "zero.cool"]),
     [CallGet "crash.count" crashCountField; CallGet "handle" handleField])
  /\ Process noMethods (MockGetter [("handle", "crash.override")])
       (addr Specification (VStruct [VInt 0; VString ""]))
     = (Some (errorString "required key crash.count missing value"),
        addr Specification (VStruct [VInt 0; VString ""]),
        [CallGet "crash.count" crashCountField])
  /\ Process noMethods (MockGetter [])
       (addr EmbeddedSpecification (VStruct [VString "sibling"]))
     = (None, addr EmbeddedSpecification (VStruct [VString "sibling"]),
        [CallGet "embed.relation.ship" relationshipField]).
Proof.
  split; [|split].
  - exact (Process_default_required_policy noMethods
             (MockGetter [("crash.count", "1507")])
             (hdr (PtrTo Specification)) (named "tagconfig_test" "Specification")
             [crashCountField] handleField [] [VInt 0] (VString "") []
             [VInt 1507] [CallGet "crash.count" crashCountField] (VString "") []
             eq_refl eq_refl eq_refl
             (fun H => ltac:(discriminate H)) eq_refl
             (fun H => ltac:(discriminate H))).
  - exact (Process_default_required_policy noMethods
             (MockGetter [("handle", "crash.override")])
             (hdr (PtrTo Specification)) (named "tagconfig_test" "Specification")
             [] crashCountField [handleField] [] (VInt 0) [VString ""]
             [] [] (VInt 0) []
             eq_refl eq_refl eq_refl
             (fun H => ltac:(discriminate H)) eq_refl
             (fun H => ltac:(discriminate H))).
  - exact (Process_default_required_policy noMethods (MockGetter [])
             (hdr (PtrTo EmbeddedSpecification))
             (named "tagconfig_test" "EmbeddedSpecification")
             [] relationshipField [] [] (VString "sibling") []
             [] [] (VString "sibling") []
             eq_refl eq_refl eq_refl
             (fun H => ltac:(discriminate H)) eq_refl
             (fun H => ltac:(discriminate H))).
Defined.

(** C2 at a string handed in as the record. *)
Lemma invalid_specification_refused_witness :
  let spec := Iface t_string (VString "what do you think this is?") in
  ValueOf_Kind spec <> reflect.Ptr
  /\ Process noMethods (MockGetter []) spec
     = (Some ErrInvalidSpecification, spec, [])
  /\ PopulateExternalSource mockSetter spec
     = (Some (Return ErrInvalidSpecification), []).
Proof.
  intros spec.
  assert (H : ValueOf_Kind spec <> reflect.Ptr) by (simpl; discriminate).
  split; [exact H|].
  exact (invalid_specification_refused noMethods (MockGetter []) mockSetter
           spec (or_introl H)).
Defined.



(** C4 at the outbound loop, which has no guard: a field marked
    [ignored:"true"] is handed to [Set], and a keyed unexported field makes
    [Value.Interface] panic; [Process] skips both. *)
Theorem PopulateExternalSource_has_no_guard :
  PopulateExternalSource (anySetter "bl")
    (addr personIgnored (VStruct [VString "The dude"]))
  = (None, [CallSet "name" (VString "The dude") ignoredName])
  /\ PopulateExternalSource (anySetter "bl")
       (addr personUnexported (VStruct [VString "The dude"]))
     = (Some (Panic panicInterface), [])
  /\ Process noMethods (MapGetter "bl" [("name", "Walter")])
       (addr personIgnored (VStruct [VString "The dude"]))
     = (None, addr personIgnored (VStruct [VString "The dude"]), [])
  /\ Process noMethods (MapGetter "bl" [("name", "Walter")])
       (addr personUnexported (VStruct [VString "The dude"]))
     = (None, addr personUnexported (VStruct [VString "The dude"]), []).
Proof. repeat split; reflexivity. Qed.

(** C5 at a list of integers: three pieces, three elements; a bad piece
    fails the field and leaves it as it was. *)
Lemma processField_slice_witness :
  decoderFrom noMethods t_ints = None
  /\ length (Split_comma "1,2,3") = 3
  /\ processField noMethods "1,2,3" t_ints VNilSlice
     = (VSlice [VInt 1; VInt 2; VInt 3], None)
  /\ processField noMethods "1,x,3" t_ints (VSlice [VInt 7])
     = (VSlice [VInt 7], Some errSyntax).
Proof.
  pose proof (processField_slice noMethods "1,2,3" (hdr t_ints) t_int VNilSlice
                eq_refl) as H.
  split; [reflexivity|].
  split; [exact (proj1 (proj2 (proj2 H)))|].
  split; reflexivity.
Defined.

(** C6 refuted at a boolean field: the sink is handed the boolean, not the
    string the source gave, a sink of strings turns it down, and two
    sources that spell the boolean differently end in the same calls. *)
Lemma roundtrip_scalar_counterexample :
  let source := MapGetter "bl" [("name", "His Dudeness"); ("abides", "true")] in
  let source' := MapGetter "bl" [("name", "His Dudeness"); ("abides", "t")] in
  let zero := addr personAbides (VStruct [VString ""; VBool false]) in
  let filled := addr personAbides (VStruct [VString "His Dudeness"; VBool true]) in
  fst (Process noMethods source zero) = (None, filled)
  /\ PopulateExternalSource (anySetter "bl") filled
     = (None, [CallSet "name" (VString "His Dudeness") nameField;
               CallSet "abides" (VBool true) abidesField])
  /\ ~ In (CallSet "abides" (VString "true") abidesField)
         (snd (PopulateExternalSource (anySetter "bl") filled))
  /\ fst (PopulateExternalSource mockSetter filled)
     = Some (Return (errorString "Received a non string"))
  /\ fst (Process noMethods source' zero) = (None, filled).
Proof.
  cbv zeta. repeat split; try reflexivity.
  intros [H|[H|[]]]; discriminate H.
Qed.

(** C6, as the code has it, at the age of a person. *)
Lemma roundtrip_string_fields_witness :
  let source := MapGetter "bl" [("name", "The dude"); ("age", "40")] in
  let zero :=
    VStruct [VString ""; VString ""; VStruct [VString ""; VString ""; VString ""]] in
  In (CallSet "age" (VString "40") ageField)
     (snd (PopulateExternalSource mockSetter
             (snd (fst (Process noMethods source (addr person zero)))))).
Proof.
  intros source zero.
  destruct (roundtrip_string_fields noMethods source mockSetter
              (hdr (PtrTo person)) (named "tagconfig_test" "person")
              [nameField; ageField; metaField]
              [VString ""; VString "";
               VStruct [VString ""; VString ""; VString ""]]
              1 ageField (VString "")
              (snd (fst (Process noMethods source (addr person zero))))
              (snd (Process noMethods source (addr person zero)))
              (snd (PopulateExternalSource mockSetter
                      (snd (fst (Process noMethods source (addr person zero))))))
              eq_refl eq_refl eq_refl eq_refl
              (fun H => ltac:(discriminate H)) eq_refl
              (fun H => ltac:(discriminate H))
              eq_refl eq_refl)
    as (vals' & f' & _ & _ & Hin & Hstr).
  rewrite (Hstr eq_refl eq_refl (fun H => ltac:(discriminate H))) in Hin.
  exact Hin.
Defined.

(** C7 refuted at the crash count: the error names the key [crash.count],
    and the field is called [SystemsCrashCount]. *)
Lemma conversion_error_counterexample :
  let pe := {| FieldName := "crash.count"; TypeName := "int"; Value := "x" |} in
  fst (fst (Process noMethods (MockGetter [("crash.count", "x")])
              (addr Specification (VStruct [VInt 0; VString ""]))))
  = Some (ParseErrorPtr pe)
  /\ FieldName pe <> Name crashCountField
  /\ ParseError_Error pe
     = "tagconfig.Process: assigning to crash.count: converting 'x' to type int".
Proof.
  cbv zeta. split; [reflexivity|]. split; [|reflexivity].
  simpl. discriminate.
Qed.

(** C7, as the code has it, at the same input. *)
Lemma Process_conversion_error_witness :
  Process noMethods (MockGetter [("crash.count", "x")])
    (addr Specification (VStruct [VInt 0; VString ""]))
  = (Some (ParseErrorPtr
             {| FieldName := "crash.count"; TypeName := "int"; Value := "x" |}),
     addr Specification (VStruct [VInt 0; VString ""]),
     [CallGet "crash.count" crashCountField]).
Proof.
  exact (Process_conversion_error noMethods (MockGetter [("crash.count", "x")])
           (hdr (PtrTo Specification)) (named "tagconfig_test" "Specification")
           [] crashCountField [handleField] [] (VInt 0) [VString ""]
           [] [] (VInt 0) [] "x" (VInt 0) errSyntax
           eq_refl eq_refl eq_refl
           (fun H => ltac:(discriminate H)) eq_refl
           (fun H => ltac:(discriminate H)) eq_refl eq_refl eq_refl).
Defined.

(** C8 at a duration and at an [int]. *)
Lemma processField_signed_witness :
  signedKind reflect.Int64 = true
  /\ isDuration t_Duration = true
  /\ processField noMethods "1h30m" t_Duration (VInt 0)
     = (VInt 5400000000000, None)
  /\ processField noMethods "1507" t_int (VInt 0) = (VInt 1507, None).
Proof.
  pose proof (processField_signed noMethods "1h30m"
                (mkHdr "time" "Duration" "time.Duration") reflect.Int64
                (VInt 0) eq_refl eq_refl) as HD.
  pose proof (processField_signed noMethods "1507"
                (mkHdr "" "int" "int") reflect.Int (VInt 0) eq_refl eq_refl)
    as HI.
  split; [reflexivity|]. split; [reflexivity|]. split.
  - exact (proj1 (proj2 HD) eq_refl).
  - exact (proj1 (proj2 (proj2 HI)) eq_refl).
Defined.

(** C9 refuted at a nil pointer to a record: the kind has no case, no
    error comes back, and the field is no longer nil.  (And a pointer to an
    [int], whose own kind has no case either, is parsed into.) *)
Lemma unsupported_kind_counterexample :
  supportedKind (Kind_of (PtrTo EmbeddedSpecification)) = false
  /\ supportedKind (Kind_of EmbeddedSpecification) = false
  /\ decoderFrom noMethods (PtrTo EmbeddedSpecification) = None
  /\ Process noMethods (MockGetter [("inner", "x")])
       (addr SpecificationWithPointer (VStruct [VPtr None]))
     = (None,
        addr SpecificationWithPointer
          (VStruct [VPtr (Some (VStruct [VString ""]))]),
        [CallGet "inner" innerPtr])
  /\ fst (processField noMethods "x" (PtrTo EmbeddedSpecification) (VPtr None))
     <> VPtr None
  /\ processField noMethods "x" (PtrTo t_int) (VPtr None)
     = (VPtr (Some (VInt 0)), Some errSyntax).
Proof.
  repeat split; try reflexivity. simpl. discriminate.
Qed.

(** C9, as the code has it, at a map and at the nil pointer to a record. *)
Lemma unsupported_kind_fallback_witness :
  decoderFrom noMethods t_map = None
  /\ processField noMethods "a=b" t_map (VOpaque 3) = (VOpaque 3, None)
  /\ processField noMethods "x" (PtrTo EmbeddedSpecification) (VPtr None)
     = (VPtr (Some (VStruct [VString ""])), None).
Proof.
  split; [reflexivity|]. split.
  - exact (proj1 (unsupported_kind_fallback noMethods "a=b" t_map (VOpaque 3)
                    eq_refl)
             (fun H => ltac:(discriminate H))
             (fun H => ltac:(discriminate H)) eq_refl).
  - exact (proj2 (unsupported_kind_fallback noMethods "x"
                    (PtrTo EmbeddedSpecification) (VPtr None) eq_refl)
             _ EmbeddedSpecification eq_refl eq_refl).
Defined.

(** C10 at records that embed a pointer to a record.  Without a key on
    the embedded pointer [Process] leaves it nil and asks the source
    nothing, though the source holds a value for the field of the record
    behind it.  With a key, [Process] asks for that key only and puts the
    value into the pointer, which it allocates; the field behind it stays
    empty.  And [PopulateExternalSource] hands the sink the pointer under
    the key of the embedded field, and nothing from behind it. *)
Lemma only_embedded_structs_recursed_witness :
  Process noMethods (MockGetter [("embed.relation.ship", "child")])
    (addr SpecificationEmbeddingPointer (VStruct [VPtr None]))
  = (None, addr SpecificationEmbeddingPointer (VStruct [VPtr None]), [])
  /\ Process noMethods
       (MockGetter [("embedded", "x"); ("embed.relation.ship", "child")])
       (addr SpecificationEmbeddingKeyedPointer (VStruct [VPtr None]))
     = (None,
        addr SpecificationEmbeddingKeyedPointer
          (VStruct [VPtr (Some (VStruct [VString ""]))]),
        [CallGet "embedded" embeddedPtrSourced])
  /\ PopulateExternalSource (anySetter "bl")
       (addr personEmbeddingPointer
          (VStruct [VPtr (Some (VStruct [VString "child"]))]))
     = (None,
        [CallSet "embedded" (VPtr (Some (VStruct [VString "child"])))
           embeddedPtrKeyed]).
Proof.
  assert (Hptr : forall sf,
             Kind_of (Type_ sf) = reflect.Ptr ->
             Anonymous sf = false \/ Kind_of (Type_ sf) <> reflect.Struct).
  { intros sf Hk. right. rewrite Hk. discriminate. }
  split; [|split].
  - exact (proj1 (only_embedded_structs_recursed noMethods
                    (MockGetter [("embed.relation.ship", "child")])
                    (anySetter "bl")
                    (hdr (PtrTo SpecificationEmbeddingPointer))
                    (named "tagconfig_test" "SpecificationEmbeddingPointer")
                    [] embeddedPtr [] [] (VPtr None) []
                    (Hptr embeddedPtr eq_refl) eq_refl)
             [] [] eq_refl).
  - exact (proj1 (only_embedded_structs_recursed noMethods
                    (MockGetter [("embedded", "x");
                                 ("embed.relation.ship", "child")])
                    (anySetter "bl")
                    (hdr (PtrTo SpecificationEmbeddingKeyedPointer))
                    (named "tagconfig_test" "SpecificationEmbeddingKeyedPointer")
                    [] embeddedPtrSourced [] [] (VPtr None) []
                    (Hptr embeddedPtrSourced eq_refl) eq_refl)
             [] [] eq_refl).
  - exact (proj2 (only_embedded_structs_recursed noMethods
                    (MockGetter []) (anySetter "bl")
                    (hdr (PtrTo personEmbeddingPointer))
                    (named "tagconfig_test" "personEmbeddingPointer")
                    [] embeddedPtrKeyed [] []
                    (VPtr (Some (VStruct [VString "child"]))) []
                    (Hptr embeddedPtrKeyed eq_refl) eq_refl)
             [] eq_refl).
Defined.

(** * Further properties *)

Section Further.

Context {std : GoStd} (methods : rtype -> option Decoder).

(** Induction on a type that reaches the types of the fields of a record. *)
Lemma rtype_fields_ind (P : rtype -> Prop) :
  (forall h k, P (TBasic h k)) ->
  (forall h elem, P elem -> P (TPtr h elem)) ->
  (forall h elem, P elem -> P (TSlice h elem)) ->
  (forall h fs, Forall (fun sf => P (Type_ sf)) fs -> P (TStruct h fs)) ->
  forall t, P t.
Proof.
  intros HB HP HS HT. fix IH 1. intros [h k|h elem|h elem|h fs].
  - apply HB.
  - apply HP, IH.
  - apply HS, IH.
  - apply HT. induction fs as [|sf fs IHfs]; constructor; [|exact IHfs].
    destruct sf as [n p ty tg a]. simpl. apply IH.
Qed.

(** ** What [Process] asks and what it returns *)

Lemma policy_UseValue_nonempty resolved def req raw :
  policy resolved def req = UseValue raw -> raw <> "".
Proof.
  unfold policy.
  destruct (String.eqb resolved "") eqn:Hr; simpl.
  - destruct (String.eqb def "") eqn:Hd; simpl.
    + destruct (String.eqb req "true"); discriminate.
    + intros H. injection H as <-. apply String.eqb_neq. exact Hd.
  - intros H. injection H as <-. apply String.eqb_neq. exact Hr.
Qed.

(** The keyed half of an iteration either does nothing, for want of a key,
    or makes one lookup under the key and ends in one of three ways. *)
Lemma Process_keyed_cases (v : TagValueGetter) sf f :
  let key := Tag_Get (Tag sf) (TagName v) in
  (key = "" /\ Process_keyed methods v sf f = (None, f, []))
  \/ (key <> "" /\
      exists e f',
        Process_keyed methods v sf f = (e, f', [CallGet key sf])
        /\ match e with
           | Some err => madeByProcess err
           | None => True
           end).
Proof.
  intros key. destruct (String.eqb key "") eqn:Hkey.
  - left. apply String.eqb_eq in Hkey. split; [exact Hkey|].
    unfold Process_keyed. fold key. rewrite Hkey. reflexivity.
  - right. apply String.eqb_neq in Hkey. split; [exact Hkey|].
    rewrite (Process_keyed_policy methods v sf f Hkey). fold key.
    destruct (policy (Get v key sf) (Tag_Get (Tag sf) "default")
                     (Tag_Get (Tag sf) "required")) as [raw| |] eqn:Hpol.
    + pose proof (policy_UseValue_nonempty _ _ _ _ Hpol) as Hraw.
      destruct (processField methods raw (Type_ sf) f) as [f' [e|]].
      * eexists _, f'. split; [reflexivity|]. right.
        eexists. split; [reflexivity|]. split; assumption.
      * exists None, f'. split; [reflexivity|exact I].
    + eexists _, f. split; [reflexivity|]. left.
      exists key. split; [exact Hkey|reflexivity].
    + exists None, f. split; [reflexivity|exact I].
Qed.

Lemma fieldsLoop_events (Q : event -> Prop) body fs vals :
  (forall sf f, In sf fs -> Forall Q (snd (body sf f))) ->
  Forall Q (snd (fieldsLoop body fs vals)).
Proof.
  revert vals. induction fs as [|sf fs IH]; intros [|f vals] Hbody; simpl;
    try constructor.
  pose proof (Hbody sf f (or_introl eq_refl)) as Hsf.
  destruct (body sf f) as [[[err|] f'] ev]; simpl in *; [exact Hsf|].
  specialize (IH vals (fun sf' f' H => Hbody sf' f' (or_intror H))).
  destruct (fieldsLoop body fs vals) as [[err vals'] ev']. simpl in *.
  apply Forall_app. split; assumption.
Qed.

Lemma fieldsLoop_error (R : error -> Prop) body fs vals err vals' ev :
  (forall sf f e f' ev', In sf fs -> body sf f = (Some e, f', ev') -> R e) ->
  fieldsLoop body fs vals = (Some err, vals', ev) ->
  R err.
Proof.
  revert vals err vals' ev.
  induction fs as [|sf fs IH]; intros [|f vals] err vals' ev Hbody Hloop;
    simpl in Hloop; try discriminate.
  destruct (body sf f) as [[[e|] f'] ev0] eqn:Hb.
  - injection Hloop as <- _ _. exact (Hbody sf f e f' ev0 (or_introl eq_refl) Hb).
  - destruct (fieldsLoop body fs vals) as [[e vals''] ev1] eqn:Hrest.
    injection Hloop as -> _ _.
    exact (IH vals err vals'' ev1
             (fun sf' f0 e0 f0' ev0' H => Hbody sf' f0 e0 f0' ev0' (or_intror H))
             Hrest).
Qed.

Lemma Process_field_events emb (v : TagValueGetter) sf f :
  (forall f0, Forall (askedByKey v) (snd (emb (Type_ sf) f0))) ->
  Forall (askedByKey v) (snd (Process_field methods emb v sf f)).
Proof.
  intros Hemb. unfold Process_field.
  destruct (negb (CanSet sf)) eqn:Hset; simpl; [constructor|].
  destruct (String.eqb (Tag_Get (Tag sf) "ignored") "true") eqn:Hign;
    [constructor|].
  apply negb_false_iff in Hset. apply String.eqb_neq in Hign.
  assert (Hev : forall f1 ev1,
             Forall (askedByKey v) ev1 ->
             Forall (askedByKey v)
               (snd (let '(err, f2, ev') := Process_keyed methods v sf f1 in
                     (err, f2, ev1 ++ ev')))).
  { intros f1 ev1 H1.
    destruct (Process_keyed_cases v sf f1) as [[_ ->]|(Hk & e & f' & -> & _)];
      simpl; apply Forall_app; split; try assumption; constructor;
      [|constructor].
    simpl. repeat split; assumption. }
  destruct (isEmbeddedStruct sf).
  - specialize (Hemb f).
    destruct (emb (Type_ sf) f) as [[[err|] f1] ev1]; simpl in *;
      [exact Hemb|apply Hev; exact Hemb].
  - apply (Hev f []). constructor.
Qed.

Lemma Process_Elem_events (v : TagValueGetter) typ s :
  Forall (askedByKey v) (snd (Process_Elem methods v typ s)).
Proof.
  revert s. induction typ as [h k|h elem _|h elem _|h fs IH]
    using rtype_fields_ind; intros s; simpl.
  - destruct k; constructor.
  - constructor.
  - constructor.
  - destruct s; try constructor.
    pose proof (fieldsLoop_events (askedByKey v)
                  (Process_field methods (Process_Elem methods v) v) fs fields)
      as Hloop.
    destruct (fieldsLoop _ fs fields) as [[err vals'] ev]. simpl in *.
    apply Hloop. intros sf f Hin. apply Process_field_events.
    rewrite Forall_forall in IH. exact (IH sf Hin).
Qed.

(** X1. Every call [Process] (and so [MustProcess]) makes on the source is
    a [Get] under the key written on a field, a key that is not empty, for
    a field that is settable and not ignored; this down through the
    embedded records, and also when [Process] ends in an error. *)
Theorem Process_asks_by_key (v : TagValueGetter) (spec : iface) :
  Forall (askedByKey v) (snd (Process methods v spec))
  /\ Forall (askedByKey v) (snd (MustProcess methods v spec)).
Proof.
  assert (H : Forall (askedByKey v) (snd (Process methods v spec))).
  { unfold Process.
    destruct spec as [|[h k|h elem|h elem|h fs] val]; try constructor.
    destruct val as [| | | | |[s|]| | | |]; try constructor.
    pose proof (Process_Elem_events v elem s) as He.
    destruct (Process_Elem methods v elem s) as [[err s'] ev]. exact He. }
  split; [exact H|].
  unfold MustProcess.
  destruct (Process methods v spec) as [[[err|] spec'] ev]; exact H.
Qed.

Lemma Process_field_error emb (v : TagValueGetter) sf f e f' ev :
  (forall f0 e0 f0' ev0,
     isEmbeddedStruct sf = true ->
     emb (Type_ sf) f0 = (Some e0, f0', ev0) -> madeByProcess e0) ->
  Process_field methods emb v sf f = (Some e, f', ev) ->
  madeByProcess e.
Proof.
  intros Hemb. unfold Process_field.
  destruct (negb (CanSet sf) || String.eqb (Tag_Get (Tag sf) "ignored") "true");
    [discriminate|].
  assert (Hk : forall f1 ev1,
             (let '(err, f2, ev') := Process_keyed methods v sf f1 in
              (err, f2, ev1 ++ ev')) = (Some e, f', ev) ->
             madeByProcess e).
  { intros f1 ev1.
    destruct (Process_keyed_cases v sf f1) as [[_ ->]|(_ & e1 & f1' & -> & He)];
      [discriminate|].
    intros H. injection H as -> _ _. exact He. }
  destruct (isEmbeddedStruct sf) eqn:Hes.
  - destruct (emb (Type_ sf) f) as [[[e0|] f1] ev1] eqn:Hrec.
    + intros H. injection H as <- _ _. exact (Hemb f e0 f1 ev1 eq_refl Hrec).
    + apply Hk.
  - apply Hk.
Qed.

Lemma Process_Elem_error (v : TagValueGetter) typ :
  Kind_of typ = reflect.Struct ->
  forall s e s' ev,
    Process_Elem methods v typ s = (Some e, s', ev) -> madeByProcess e.
Proof.
  induction typ as [h k|h elem _|h elem _|h fs IH] using rtype_fields_ind;
    intros Hkind s e s' ev; simpl in Hkind; try discriminate.
  - subst k. simpl. discriminate.
  - simpl. destruct s; try discriminate.
    destruct (fieldsLoop (Process_field methods (Process_Elem methods v) v)
                fs fields) as [[[err|] vals'] ev0] eqn:Hloop;
      [|discriminate].
    intros H. injection H as <- _ _.
    apply (fieldsLoop_error madeByProcess _ _ _ _ _ _) with (2 := Hloop).
    intros sf f e0 f' ev' Hin Hb.
    apply (Process_field_error _ v sf f e0 f' ev') with (2 := Hb).
    intros f0 e1 f0' ev1 Hes Hrec.
    rewrite Forall_forall in IH.
    apply (IH sf Hin) with (2 := Hrec).
    unfold isEmbeddedStruct in Hes. apply andb_true_iff in Hes.
    destruct Hes as [_ Hes].
    destruct (Kind_of (Type_ sf)); simpl in Hes; try discriminate.
    reflexivity.
Qed.

(** X2. An error that [Process] returns is [ErrInvalidSpecification], and
    then [spec] was not a pointer to a record and nothing was asked, or it
    is one of the two errors [Process] makes itself: a required key without
    a value, or a [ParseError]; in both the key is not empty, and the raw
    value of a [ParseError] is not empty either.  No error of a parser or
    of a Decoder comes out as it is.  [MustProcess] panics with these same
    errors. *)
Theorem Process_error_kinds (v : TagValueGetter) (spec spec' : iface) e ev :
  Process methods v spec = (Some e, spec', ev)
  \/ MustProcess methods v spec = (Some (PanicValue e), spec', ev) ->
  (e = ErrInvalidSpecification
   /\ (ValueOf_Kind spec <> reflect.Ptr \/ Elem_Kind spec <> reflect.Struct)
   /\ spec' = spec /\ ev = [])
  \/ madeByProcess e.
Proof.
  intros H.
  assert (HP : Process methods v spec = (Some e, spec', ev)).
  { destruct H as [H|H]; [exact H|]. unfold MustProcess in H.
    destruct (Process methods v spec) as [[[err|] sp] ev0]; [|discriminate].
    injection H as -> -> ->. reflexivity. }
  clear H. revert HP. unfold Process.
  assert (Hbad : forall sp : iface,
             ValueOf_Kind sp <> reflect.Ptr \/ Elem_Kind sp <> reflect.Struct ->
             (Some ErrInvalidSpecification, sp, @nil event) = (Some e, spec', ev) ->
             (e = ErrInvalidSpecification
              /\ (ValueOf_Kind sp <> reflect.Ptr \/ Elem_Kind sp <> reflect.Struct)
              /\ spec' = sp /\ ev = [])
             \/ madeByProcess e).
  { intros sp Hsp H. injection H as <- <- <-. left. repeat split. exact Hsp. }
  destruct spec as [|[h k|h elem|h elem|h fs] val];
    try (apply Hbad; right; simpl; discriminate).
  destruct val as [| | | | |[s|]| | | |];
    try (apply Hbad; right; simpl; discriminate).
  destruct (reflect.Kind_eqb (Kind_of elem) reflect.Struct) eqn:Hk.
  - assert (Hkind : Kind_of elem = reflect.Struct).
    { destruct (Kind_of elem); simpl in Hk; try discriminate. reflexivity. }
    destruct (Process_Elem methods v elem s) as [[err s'] ev0] eqn:Hrec.
    intros H. injection H as -> _ _. right.
    exact (Process_Elem_error v elem Hkind s e s' ev0 Hrec).
  - assert (Hkind : Kind_of elem <> reflect.Struct).
    { intros H. rewrite H in Hk. discriminate. }
    assert (Hrec : Process_Elem methods v elem s
                   = (Some ErrInvalidSpecification, s, [])).
    { destruct elem as [? k|? ?|? ?|? ?]; try reflexivity.
      - destruct k; try reflexivity. exfalso. apply Hkind. reflexivity.
      - exfalso. apply Hkind. reflexivity. }
    rewrite Hrec. apply Hbad. right. exact Hkind.
Qed.

(** ** A Decoder's error *)

(** X3. A custom Decoder takes the field over whatever its kind: the switch
    is not reached.  And when the Decoder of a reached field returns an
    error, [Process] does not return that error: it returns a [ParseError]
    with the key, the type and the raw value, after the Decoder had its way
    with the field. *)
Theorem Process_wraps_decoder_error
    (v : TagValueGetter) h hs pre sf post vpre f vpost vpre' ev0 f1 ev1
    dec raw f' e :
  let body := Process_field methods (Process_Elem methods v) v in
  let key := Tag_Get (Tag sf) (TagName v) in
  let record vals :=
    Iface (TPtr h (TStruct hs (pre ++ sf :: post))) (VPtr (Some (VStruct vals))) in
  length pre = length vpre ->
  fieldsLoop body pre vpre = (None, vpre', ev0) ->
  CanSet sf = true ->
  Tag_Get (Tag sf) "ignored" <> "true" ->
  (if isEmbeddedStruct sf then Process_Elem methods v (Type_ sf) f
   else (None, f, [])) = (None, f1, ev1) ->
  key <> "" ->
  decoderFrom methods (Type_ sf) = Some dec ->
  policy (Get v key sf) (Tag_Get (Tag sf) "default")
         (Tag_Get (Tag sf) "required") = UseValue raw ->
  Decode dec raw f1 = (f', Some e) ->
  (forall value field,
     processField methods value (Type_ sf) field = Decode dec value field)
  /\ Process methods v (record (vpre ++ f :: vpost))
     = (Some (ParseErrorPtr
                {| FieldName := key;
                   TypeName := tString (hdr (Type_ sf));
                   Value := raw |}),
        record (vpre' ++ f' :: vpost),
        ev0 ++ ev1 ++ [CallGet key sf]).
Proof.
  intros body key record Hlen Hpre Hset Hign Hemb Hkey Hdec Hpol Hfail.
  assert (Hpf : forall value field,
             processField methods value (Type_ sf) field
             = Decode dec value field).
  { intros value field. rewrite processField_eq, Hdec. reflexivity. }
  split; [exact Hpf|].
  unfold record.
  rewrite (Process_reaches_field methods v h hs pre sf post vpre f vpost vpre'
             ev0 f1 ev1 Hlen Hpre Hset Hign Hemb).
  rewrite (Process_keyed_policy methods v sf f1 Hkey). fold key.
  rewrite Hpol, Hpf, Hfail. reflexivity.
Qed.

(** ** Records without keys *)

Lemma fieldsLoop_skip body fs vals :
  (forall sf f, In sf fs -> body sf f = (None, f, [])) ->
  fieldsLoop body fs vals = (None, vals, []).
Proof.
  revert vals. induction fs as [|sf fs IH]; intros [|f vals] Hbody; simpl;
    try reflexivity.
  rewrite (Hbody sf f (or_introl eq_refl)).
  rewrite (IH vals (fun sf' f' H => Hbody sf' f' (or_intror H))).
  reflexivity.
Qed.

Lemma fieldsRange_skip body fs vals :
  (forall sf f, In sf fs -> body sf f = (None, [])) ->
  fieldsRange body fs vals = (None, []).
Proof.
  revert vals. induction fs as [|sf fs IH]; intros [|f vals] Hbody; simpl;
    try reflexivity.
  rewrite (Hbody sf f (or_introl eq_refl)).
  rewrite (IH vals (fun sf' f' H => Hbody sf' f' (or_intror H))).
  reflexivity.
Qed.

Lemma isEmbeddedStruct_kind sf :
  isEmbeddedStruct sf = true -> Kind_of (Type_ sf) = reflect.Struct.
Proof.
  unfold isEmbeddedStruct. intros H. apply andb_true_iff in H.
  destruct H as [_ H].
  destruct (Kind_of (Type_ sf)); simpl in H; try discriminate. reflexivity.
Qed.

Lemma keyless_field tag h fs sf :
  keyless tag (TStruct h fs) = true ->
  In sf fs ->
  Tag_Get (Tag sf) tag = ""
  /\ (isEmbeddedStruct sf = true -> keyless tag (Type_ sf) = true).
Proof.
  simpl. intros H Hin. rewrite forallb_forall in H. specialize (H sf Hin).
  destruct sf as [n p ty tg a]. apply andb_true_iff in H.
  destruct H as [Hk He]. split.
  - apply String.eqb_eq. exact Hk.
  - unfold isEmbeddedStruct. simpl. intros Hes. rewrite Hes in He. exact He.
Qed.

Lemma readable_field tag h fs sf :
  readable tag (TStruct h fs) = true ->
  In sf fs ->
  (isEmbeddedStruct sf = true ->
   CanInterface sf = true /\ readable tag (Type_ sf) = true)
  /\ (isEmbeddedStruct sf = false ->
      Tag_Get (Tag sf) tag <> "" -> CanInterface sf = true).
Proof.
  simpl. intros H Hin. rewrite forallb_forall in H. specialize (H sf Hin).
  destruct sf as [n p ty tg a]. unfold isEmbeddedStruct, CanInterface.
  simpl in *. split; intros Hes; rewrite Hes in H.
  - apply andb_true_iff in H. exact H.
  - intros Hkey. apply orb_true_iff in H. destruct H as [H|H]; [|exact H].
    apply String.eqb_eq in H. contradiction.
Qed.

Lemma Process_Elem_keyless (v : TagValueGetter) typ :
  Kind_of typ = reflect.Struct ->
  keyless (TagName v) typ = true ->
  forall s, Process_Elem methods v typ s = (None, s, []).
Proof.
  induction typ as [h k|h elem _|h elem _|h fs IH] using rtype_fields_ind;
    intros Hkind Hless s; simpl in Hkind; try discriminate.
  - subst k. reflexivity.
  - destruct s; try reflexivity. rewrite Process_Elem_struct.
    rewrite fieldsLoop_skip; [reflexivity|].
    intros sf f Hin.
    destruct (keyless_field _ h fs sf Hless Hin) as [Hkey Hrec].
    unfold Process_field.
    destruct (negb (CanSet sf) || _); [reflexivity|].
    assert (Hk : Process_keyed methods v sf f = (None, f, [])).
    { unfold Process_keyed. rewrite Hkey. reflexivity. }
    destruct (isEmbeddedStruct sf) eqn:Hes.
    + rewrite Forall_forall in IH.
      rewrite (IH sf Hin (isEmbeddedStruct_kind sf Hes) (Hrec eq_refl) f).
      rewrite Hk. reflexivity.
    + rewrite Hk. reflexivity.
Qed.

Lemma Populate_Elem_keyless (w : TagValueSetter) typ :
  Kind_of typ = reflect.Struct ->
  keyless (TagName w) typ = true ->
  readable (TagName w) typ = true ->
  forall s, Populate_Elem w typ s = (None, []).
Proof.
  induction typ as [h k|h elem _|h elem _|h fs IH] using rtype_fields_ind;
    intros Hkind Hless Hread s; simpl in Hkind; try discriminate.
  - subst k. reflexivity.
  - destruct s; try reflexivity. rewrite Populate_Elem_struct.
    apply fieldsRange_skip. intros sf f Hin.
    destruct (keyless_field _ h fs sf Hless Hin) as [Hkey Hrec].
    destruct (readable_field _ h fs sf Hread Hin) as [Hemb _].
    unfold Populate_field.
    destruct (isEmbeddedStruct sf) eqn:Hes.
    + destruct (Hemb eq_refl) as [Hcan Hr]. rewrite Hcan.
      rewrite Forall_forall in IH.
      exact (IH sf Hin (isEmbeddedStruct_kind sf Hes) (Hrec eq_refl) Hr f).
    + rewrite Hkey. reflexivity.
Qed.

(** X4. Without a key under the tag name of the source on any field that
    the traversal can reach, [Process] returns nil, leaves the record as it
    was and asks the source nothing, whatever [required] and [default] say
    on the fields.  Likewise [PopulateExternalSource] returns nil without a
    call, provided the records embedded on the way are exported. *)
Theorem keyless_record_untouched
    (v : TagValueGetter) (w : TagValueSetter) h typ s :
  Kind_of typ = reflect.Struct ->
  keyless (TagName v) typ = true ->
  Process methods v (Iface (TPtr h typ) (VPtr (Some s)))
  = (None, Iface (TPtr h typ) (VPtr (Some s)), [])
  /\ (TagName w = TagName v ->
      readable (TagName w) typ = true ->
      PopulateExternalSource w (Iface (TPtr h typ) (VPtr (Some s)))
      = (None, [])).
Proof.
  intros Hkind Hless. split.
  - unfold Process. rewrite (Process_Elem_keyless v typ Hkind Hless s).
    reflexivity.
  - intros Htag Hread. unfold PopulateExternalSource.
    apply Populate_Elem_keyless; [exact Hkind| |exact Hread].
    rewrite Htag. exact Hless.
Qed.

(** ** The first error *)

Lemma fieldsLoop_error_split body fs vals err vals' ev :
  fieldsLoop body fs vals = (Some err, vals', ev) ->
  exists pre sf post vpre f vpost vpre' f' ev0 evi,
    fs = pre ++ sf :: post
    /\ vals = vpre ++ f :: vpost
    /\ length pre = length vpre
    /\ fieldsLoop body pre vpre = (None, vpre', ev0)
    /\ body sf f = (Some err, f', evi)
    /\ vals' = vpre' ++ f' :: vpost
    /\ ev = ev0 ++ evi.
Proof.
  revert vals err vals' ev.
  induction fs as [|sf fs IH]; intros [|f vals] err vals' ev Hloop;
    simpl in Hloop; try discriminate.
  destruct (body sf f) as [[[e|] f'] ev0] eqn:Hb.
  - injection Hloop as <- <- <-.
    exists [], sf, fs, [], f, vals, [], f', [], ev0.
    repeat split; try reflexivity. exact Hb.
  - destruct (fieldsLoop body fs vals) as [[e vals''] ev1] eqn:Hrest.
    injection Hloop as -> <- <-.
    destruct (IH vals err vals'' ev1 Hrest)
      as (pre & sf1 & post & vpre & f1 & vpost & vpre' & f1' & eva & evi
          & -> & -> & Hlen & Hpre & Hb1 & -> & ->).
    exists (sf :: pre), sf1, post, (f :: vpre), f1, vpost, (f' :: vpre'),
      f1', (ev0 ++ eva), evi.
    repeat split; try reflexivity.
    + simpl. rewrite Hlen. reflexivity.
    + simpl. rewrite Hb, Hpre. reflexivity.
    + exact Hb1.
    + rewrite app_assoc. reflexivity.
Qed.

(** X5. [Process] stops at the first field that raises an error: when it
    returns an error on a record, the record splits at one field; the
    fields before it went through their iterations without error and stay
    as those left them (nothing is rolled back), the error is that of the
    field's own iteration, the fields after it hold what they held before,
    and the source was asked nothing after that iteration. *)
Theorem Process_stops_at_first_error
    (v : TagValueGetter) h hs fs vals err spec' ev :
  let body := Process_field methods (Process_Elem methods v) v in
  Process methods v (Iface (TPtr h (TStruct hs fs)) (VPtr (Some (VStruct vals))))
  = (Some err, spec', ev) ->
  exists pre sf post vpre f vpost vpre' f' ev0 evi,
    fs = pre ++ sf :: post
    /\ vals = vpre ++ f :: vpost
    /\ length pre = length vpre
    /\ fieldsLoop body pre vpre = (None, vpre', ev0)
    /\ body sf f = (Some err, f', evi)
    /\ spec' = Iface (TPtr h (TStruct hs fs))
                 (VPtr (Some (VStruct (vpre' ++ f' :: vpost))))
    /\ ev = ev0 ++ evi.
Proof.
  intros body. unfold Process. rewrite Process_Elem_struct. fold body.
  destruct (fieldsLoop body fs vals) as [[e vals'] ev1] eqn:Hloop.
  intros H. injection H as -> <- <-.
  destruct (fieldsLoop_error_split body fs vals err vals' ev1 Hloop)
    as (pre & sf & post & vpre & f & vpost & vpre' & f' & ev0 & evi
        & Hfs & Hvals & Hlen & Hpre & Hb & -> & Hev).
  exists pre, sf, post, vpre, f, vpost, vpre', f', ev0, evi.
  repeat split; assumption || reflexivity.
Qed.

(** ** Processing twice *)

Lemma assignByKind_idem rec value typ x x' e :
  assignByKind rec value typ x = (x', e) ->
  assignByKind rec value typ x' = (x', e).
Proof.
  destruct typ as [h k|h e0|h e0|h fs0]; simpl;
    try (intros H; injection H as <- <-; reflexivity).
  - destruct k; simpl;
      try (intros H; injection H as <- <-; reflexivity);
      match goal with
      | |- context [match ?t with inl _ => _ | inr _ => _ end] => destruct t
      end; intros H; injection H as <- <-; reflexivity.
  - destruct (processElems _ _ _); intros H; injection H as <- <-; reflexivity.
Qed.

Lemma no_methods_no_decoder typ :
  (forall t, methods t = None) -> decoderFrom methods typ = None.
Proof. intros H. unfold decoderFrom. rewrite !H. reflexivity. Qed.

Lemma processField_idem value typ x x' e :
  (forall t, methods t = None) ->
  processField methods value typ x = (x', e) ->
  processField methods value typ x' = (x', e).
Proof.
  intros Hno. rewrite !processField_eq, (no_methods_no_decoder typ Hno).
  destruct typ as [h k|h elem|h elem|h fs0];
    try apply assignByKind_idem.
  cbv zeta.
  destruct (assignByKind (processField methods) value elem
              match x with VPtr (Some y) => y | _ => Zero elem end)
    as [y er] eqn:Ha.
  intros H. injection H as <- <-.
  rewrite (assignByKind_idem _ _ _ _ _ _ Ha). reflexivity.
Qed.

Lemma Process_keyed_idem (v : TagValueGetter) sf f e f' ev :
  (forall t, methods t = None) ->
  Process_keyed methods v sf f = (e, f', ev) ->
  Process_keyed methods v sf f' = (e, f', ev).
Proof.
  intros Hno. unfold Process_keyed.
  destruct (String.eqb (Tag_Get (Tag sf) (TagName v)) "");
    [intros H; injection H as <- <- <-; reflexivity|].
  cbv zeta.
  destruct (String.eqb _ "" && String.eqb (Tag_Get (Tag sf) "default") "").
  - destruct (String.eqb (Tag_Get (Tag sf) "required") "true");
      intros H; injection H as <- <- <-; reflexivity.
  - match goal with
    | |- context [processField methods ?raw (Type_ sf) f] =>
        destruct (processField methods raw (Type_ sf) f) as [f1 er] eqn:Hp
    end.
    destruct er; intros H; injection H as <- <- <-;
      rewrite (processField_idem _ _ _ _ _ Hno Hp); reflexivity.
Qed.

(** Without a Decoder, the keyed half leaves a record as it finds it. *)
Lemma Process_keyed_struct (v : TagValueGetter) sf f :
  (forall t, methods t = None) ->
  Kind_of (Type_ sf) = reflect.Struct ->
  snd (fst (Process_keyed methods v sf f)) = f.
Proof.
  intros Hno Hkind.
  destruct (Process_keyed_cases v sf f) as [[_ ->]|[Hkey _]]; [reflexivity|].
  rewrite (Process_keyed_policy methods v sf f Hkey).
  destruct (policy _ _ _) as [raw| |]; try reflexivity.
  assert (Hp : processField methods raw (Type_ sf) f = (f, None)).
  { rewrite processField_eq, (no_methods_no_decoder _ Hno).
    destruct (Type_ sf) as [? k|? ?|? ?|? ?]; try discriminate Hkind;
      apply assignByKind_struct; exact Hkind. }
  rewrite Hp. reflexivity.
Qed.

Lemma Process_field_idem emb (v : TagValueGetter) sf f e f' ev :
  (forall t, methods t = None) ->
  (isEmbeddedStruct sf = true ->
   forall f0 e0 f1 ev0,
     emb (Type_ sf) f0 = (e0, f1, ev0) -> emb (Type_ sf) f1 = (e0, f1, ev0)) ->
  Process_field methods emb v sf f = (e, f', ev) ->
  Process_field methods emb v sf f' = (e, f', ev).
Proof.
  intros Hno Hemb. unfold Process_field.
  destruct (negb (CanSet sf) || String.eqb (Tag_Get (Tag sf) "ignored") "true");
    [intros H; injection H as <- <- <-; reflexivity|].
  destruct (isEmbeddedStruct sf) eqn:Hes.
  - destruct (emb (Type_ sf) f) as [[e0 f1] ev0] eqn:Hrec.
    pose proof (Hemb eq_refl f e0 f1 ev0 Hrec) as Hrec'.
    destruct e0 as [err|].
    + intros H. injection H as <- <- <-. rewrite Hrec'. reflexivity.
    + pose proof (Process_keyed_struct v sf f1 Hno
                    (isEmbeddedStruct_kind sf Hes)) as Hsame.
      destruct (Process_keyed methods v sf f1) as [[e2 f2] ev2] eqn:Hk.
      simpl in Hsame. subst f2.
      intros H. injection H as <- <- <-. rewrite Hrec', Hk. reflexivity.
  - destruct (Process_keyed methods v sf f) as [[e2 f2] ev2] eqn:Hk.
    intros H. injection H as <- <- <-.
    rewrite (Process_keyed_idem v sf f e2 f2 ev2 Hno Hk). reflexivity.
Qed.

Lemma fieldsLoop_idem body fs vals e vals' ev :
  (forall sf, In sf fs ->
   forall f e0 f' ev0, body sf f = (e0, f', ev0) -> body sf f' = (e0, f', ev0)) ->
  fieldsLoop body fs vals = (e, vals', ev) ->
  fieldsLoop body fs vals' = (e, vals', ev).
Proof.
  revert vals e vals' ev.
  induction fs as [|sf fs IH]; intros [|f vals] e vals' ev Hbody Hloop;
    simpl in Hloop; try (injection Hloop as <- <- <-; reflexivity).
  destruct (body sf f) as [[e0 f'] ev0] eqn:Hb.
  pose proof (Hbody sf (or_introl eq_refl) f e0 f' ev0 Hb) as Hb'.
  destruct e0 as [err|].
  - injection Hloop as <- <- <-. simpl. rewrite Hb'. reflexivity.
  - destruct (fieldsLoop body fs vals) as [[e1 vals1] ev1] eqn:Hrest.
    injection Hloop as <- <- <-. simpl. rewrite Hb'.
    rewrite (IH vals e1 vals1 ev1
               (fun sf' H => Hbody sf' (or_intror H)) Hrest).
    reflexivity.
Qed.

Lemma Process_Elem_idem (v : TagValueGetter) typ :
  (forall t, methods t = None) ->
  forall s e s' ev,
    Process_Elem methods v typ s = (e, s', ev) ->
    Process_Elem methods v typ s' = (e, s', ev).
Proof.
  intros Hno.
  induction typ as [h k|h elem _|h elem _|h fs IH] using rtype_fields_ind;
    intros s e s' ev; simpl;
    try (intros H; injection H as <- <- <-; reflexivity).
  - destruct k; intros H; injection H as <- <- <-; reflexivity.
  - destruct s; try (intros H; injection H as <- <- <-; reflexivity).
    destruct (fieldsLoop (Process_field methods (Process_Elem methods v) v)
                fs fields) as [[e1 vals1] ev1] eqn:Hloop.
    intros H. injection H as <- <- <-.
    rewrite (fieldsLoop_idem _ fs fields e1 vals1 ev1); [reflexivity| |exact Hloop].
    intros sf Hin f e0 f' ev0. apply Process_field_idem; [exact Hno|].
    intros _. rewrite Forall_forall in IH. exact (IH sf Hin).
Qed.

(** X6. When no type of the program has a custom Decoder, processing the
    outcome of [Process] again from the same source changes nothing: the
    second run ends as the first did (nil, or the same error), leaves the
    record as the first left it, and asks the source the same questions. *)
Theorem Process_idempotent (v : TagValueGetter) (spec spec' : iface) e ev :
  (forall t, methods t = None) ->
  Process methods v spec = (e, spec', ev) ->
  Process methods v spec' = (e, spec', ev).
Proof.
  intros Hno. unfold Process.
  destruct spec as [|[h k|h elem|h elem|h fs] val];
    try (intros H; injection H as <- <- <-; reflexivity).
  destruct val as [| | | | |[s|]| | | |];
    try (intros H; injection H as <- <- <-; reflexivity).
  destruct (Process_Elem methods v elem s) as [[e1 s1] ev1] eqn:Hrec.
  intros H. injection H as <- <- <-.
  rewrite (Process_Elem_idem v elem Hno s e1 s1 ev1 Hrec). reflexivity.
Qed.

(** ** What [PopulateExternalSource] sets, and how it ends *)

Lemma fieldsRange_events (Q : event -> Prop) body fs vals :
  (forall sf f, In sf fs -> Forall Q (snd (body sf f))) ->
  Forall Q (snd (fieldsRange body fs vals)).
Proof.
  revert vals. induction fs as [|sf fs IH]; intros [|f vals] Hbody; simpl;
    try constructor.
  pose proof (Hbody sf f (or_introl eq_refl)) as Hsf.
  destruct (body sf f) as [[a|] ev]; simpl in *; [exact Hsf|].
  specialize (IH vals (fun sf' f' H => Hbody sf' f' (or_intror H))).
  destruct (fieldsRange body fs vals) as [a ev']. simpl in *.
  apply Forall_app. split; assumption.
Qed.

Lemma Populate_Elem_events (w : TagValueSetter) typ s :
  Forall (setByKey w) (snd (Populate_Elem w typ s)).
Proof.
  revert s. induction typ as [h k|h elem _|h elem _|h fs IH]
    using rtype_fields_ind; intros s; simpl.
  - destruct k; constructor.
  - constructor.
  - constructor.
  - destruct s; try constructor.
    apply fieldsRange_events. intros sf f Hin. unfold Populate_field.
    destruct (isEmbeddedStruct sf) eqn:Hes.
    + destruct (CanInterface sf); [|constructor].
      rewrite Forall_forall in IH. exact (IH sf Hin f).
    + destruct (String.eqb (Tag_Get (Tag sf) (TagName w)) "") eqn:Hkey;
        simpl; [constructor|].
      apply String.eqb_neq in Hkey.
      destruct (CanInterface sf) eqn:Hcan; [|constructor].
      destruct (Set_ w _ f sf); simpl; constructor; try constructor;
        simpl; repeat split; assumption.
Qed.

(** X7. Every call [PopulateExternalSource] makes on the sink is a [Set]
    under the key written on a field, a key that is not empty, for an
    exported field that is not an embedded record; this down through the
    embedded records, and however the call ends. *)
Theorem PopulateExternalSource_sets_by_key (w : TagValueSetter) (spec : iface) :
  Forall (setByKey w) (snd (PopulateExternalSource w spec)).
Proof.
  unfold PopulateExternalSource.
  destruct spec as [|[h k|h elem|h elem|h fs] val]; try constructor.
  destruct val as [| | | | |[s|]| | | |]; try constructor.
  apply Populate_Elem_events.
Qed.

Lemma sinkVerdict_app (w : TagValueSetter) a ev0 ev :
  Forall (accepted w) ev0 ->
  sinkVerdict w a ev ->
  sinkVerdict w a (ev0 ++ ev).
Proof.
  intros H0. destruct a as [[err|msg]|]; simpl.
  - intros (ev1 & key & x & sf & -> & Hset & H1).
    exists (ev0 ++ ev1), key, x, sf. split; [apply app_assoc|].
    split; [exact Hset|]. apply Forall_app. split; assumption.
  - intros [-> H1]. split; [reflexivity|]. apply Forall_app. split; assumption.
  - intros H1. apply Forall_app. split; assumption.
Qed.

Lemma fieldsRange_verdict (w : TagValueSetter) body fs vals a ev :
  (forall sf f a0 ev0, In sf fs -> body sf f = (a0, ev0) -> sinkVerdict w a0 ev0) ->
  fieldsRange body fs vals = (a, ev) ->
  sinkVerdict w a ev.
Proof.
  revert vals a ev.
  induction fs as [|sf fs IH]; intros [|f vals] a ev Hbody Hloop;
    simpl in Hloop; try (injection Hloop as <- <-; constructor).
  destruct (body sf f) as [[a0|] ev0] eqn:Hb.
  - injection Hloop as <- <-. exact (Hbody sf f _ ev0 (or_introl eq_refl) Hb).
  - destruct (fieldsRange body fs vals) as [a1 ev1] eqn:Hrest.
    injection Hloop as <- <-.
    apply sinkVerdict_app.
    + exact (Hbody sf f None ev0 (or_introl eq_refl) Hb).
    + exact (IH vals a1 ev1
               (fun sf' f' a' ev' H => Hbody sf' f' a' ev' (or_intror H)) Hrest).
Qed.

Lemma Populate_Elem_verdict (w : TagValueSetter) typ :
  Kind_of typ = reflect.Struct ->
  forall s a ev, Populate_Elem w typ s = (a, ev) -> sinkVerdict w a ev.
Proof.
  induction typ as [h k|h elem _|h elem _|h fs IH] using rtype_fields_ind;
    intros Hkind s a ev; simpl in Hkind; try discriminate.
  - subst k. simpl. intros H. injection H as <- <-. constructor.
  - simpl. destruct s; try (intros H; injection H as <- <-; constructor).
    apply fieldsRange_verdict. intros sf f a0 ev0 Hin. unfold Populate_field.
    destruct (isEmbeddedStruct sf) eqn:Hes.
    + destruct (CanInterface sf).
      * rewrite Forall_forall in IH.
        exact (IH sf Hin (isEmbeddedStruct_kind sf Hes) f a0 ev0).
      * intros H. injection H as <- <-. split; [reflexivity|constructor].
    + destruct (String.eqb (Tag_Get (Tag sf) (TagName w)) ""); simpl;
        [intros H; injection H as <- <-; constructor|].
      destruct (CanInterface sf);
        [|intros H; injection H as <- <-; split; [reflexivity|constructor]].
      destruct (Set_ w _ f sf) as [err|] eqn:Hset;
        intros H; injection H as <- <-.
      * exists [], (Tag_Get (Tag sf) (TagName w)), f, sf.
        split; [reflexivity|]. split; [exact Hset|constructor].
      * constructor; [exact Hset|constructor].
Qed.

(** X8. On a pointer to a record, [PopulateExternalSource] ends in one of
    three ways.  It returns nil, and the sink accepted every call.  Or it
    returns an error, which is the very error the sink gave to the last
    call made, every call before it having been accepted: the first
    refusal stops the traversal.  Or it panics, in [Value.Interface]. *)
Theorem PopulateExternalSource_verdict
    (w : TagValueSetter) h typ s a ev :
  Kind_of typ = reflect.Struct ->
  PopulateExternalSource w (Iface (TPtr h typ) (VPtr (Some s))) = (a, ev) ->
  sinkVerdict w a ev.
Proof.
  intros Hkind. unfold PopulateExternalSource.
  apply Populate_Elem_verdict. exact Hkind.
Qed.

Lemma fieldsRange_no_panic body fs vals msg :
  (forall sf f, In sf fs -> fst (body sf f) <> Some (Panic msg)) ->
  fst (fieldsRange body fs vals) <> Some (Panic msg).
Proof.
  revert vals. induction fs as [|sf fs IH]; intros [|f vals] Hbody; simpl;
    try discriminate.
  pose proof (Hbody sf f (or_introl eq_refl)) as Hsf.
  destruct (body sf f) as [[a|] ev]; simpl in *; [exact Hsf|].
  specialize (IH vals (fun sf' f' H => Hbody sf' f' (or_intror H))).
  destruct (fieldsRange body fs vals) as [a ev']. exact IH.
Qed.

Lemma Populate_Elem_no_panic (w : TagValueSetter) typ msg :
  readable (TagName w) typ = true ->
  forall s, fst (Populate_Elem w typ s) <> Some (Panic msg).
Proof.
  induction typ as [h k|h elem _|h elem _|h fs IH] using rtype_fields_ind;
    intros Hread s; simpl; try discriminate.
  - destruct k; discriminate.
  - destruct s; try discriminate.
    apply fieldsRange_no_panic. intros sf f Hin.
    destruct (readable_field _ h fs sf Hread Hin) as [Hemb Hord].
    unfold Populate_field.
    destruct (isEmbeddedStruct sf) eqn:Hes.
    + destruct (Hemb eq_refl) as [Hcan Hr]. rewrite Hcan.
      rewrite Forall_forall in IH. exact (IH sf Hin Hr f).
    + destruct (String.eqb (Tag_Get (Tag sf) (TagName w)) "") eqn:Hkey;
        simpl; [discriminate|].
      apply String.eqb_neq in Hkey. rewrite (Hord eq_refl Hkey).
      destruct (Set_ w _ f sf); discriminate.
Qed.

(** X9. [PopulateExternalSource] does not panic on a record all of whose
    fields it takes the value of are exported: the records it embeds, down
    through them, and the fields with a key under the tag name of the
    sink.  Unexported fields without a key are no danger. *)
Theorem PopulateExternalSource_no_panic
    (w : TagValueSetter) h typ (val : rvalue) msg :
  readable (TagName w) typ = true ->
  fst (PopulateExternalSource w (Iface (TPtr h typ) val)) <> Some (Panic msg).
Proof.
  intros Hread. unfold PopulateExternalSource.
  destruct val as [| | | | |[s|]| | | |]; try discriminate.
  apply Populate_Elem_no_panic. exact Hread.
Qed.

(** ** What a coercion depends on, and what it leaves behind *)

Lemma assignByKind_error_unchanged rec value typ x x' e :
  assignByKind rec value typ x = (x', Some e) -> x' = x.
Proof.
  destruct typ as [h k|h e0|h e0|h fs0]; simpl;
    try (intros H; injection H as <- _; reflexivity).
  - destruct k; simpl;
      try (intros H; injection H as <- _; reflexivity);
      try discriminate;
      match goal with
      | |- context [match ?t with inl _ => _ | inr _ => _ end] => destruct t
      end; intros H; try discriminate H; injection H as <- _; reflexivity.
  - destruct (processElems _ _ _); intros H; try discriminate H.
    injection H as <- _. reflexivity.
Qed.

(** X10. When the coercion of a field without a custom Decoder fails, a
    field that is not a pointer holds what it held before, whatever its
    kind.  A pointer field does not: it is allocated before the parsing, so
    it ends non-nil, pointing to what it pointed to, or to a zero value
    when it was nil. *)
Theorem processField_failure_keeps_field
    (value : string) typ (field field' : rvalue) e :
  decoderFrom methods typ = None ->
  processField methods value typ field = (field', Some e) ->
  (Kind_of typ <> reflect.Ptr -> field' = field)
  /\ (forall h elem,
        typ = TPtr h elem ->
        field' = VPtr (Some match field with
                            | VPtr (Some x) => x
                            | _ => Zero elem
                            end)).
Proof.
  intros Hdec. rewrite processField_eq, Hdec. intros H. split.
  - intros Hptr.
    destruct typ as [? k|? ?|? ?|? ?];
      try exact (assignByKind_error_unchanged _ _ _ _ _ _ H).
    exfalso. apply Hptr. reflexivity.
  - intros h elem ->. cbv zeta in H.
    destruct (assignByKind (processField methods) value elem
                match field with VPtr (Some y) => y | _ => Zero elem end)
      as [y er] eqn:Ha.
    injection H as <- ->.
    rewrite (assignByKind_error_unchanged _ _ _ _ _ _ Ha). reflexivity.
Qed.

Lemma assignByKind_overwrites rec value typ :
  hasCase typ = true ->
  (exists y, forall x, assignByKind rec value typ x = (y, None))
  \/ (exists e, forall x, assignByKind rec value typ x = (x, Some e)).
Proof.
  destruct typ as [h k|h e0|h e0|h fs0]; simpl; try discriminate.
  - destruct k; simpl; try discriminate; intros _;
      try (left; eexists; intros x; reflexivity);
      match goal with
      | |- context [match ?t with inl _ => _ | inr _ => _ end] =>
          destruct t as [val|err]
      end;
      first [ left; eexists; intros x; reflexivity
            | right; eexists; intros x; reflexivity ].
  - intros _. destruct (processElems _ _ _) as [sl|err].
    + left. eexists. intros x. reflexivity.
    + right. eexists. intros x. reflexivity.
Qed.

(** X11. For a field of a type the switch has a case for (no pointer, no
    custom Decoder), the outcome of a coercion is a matter of the raw string
    alone: either it succeeds with one value whatever the field held, so a
    list is replaced and never added to, or it fails with one error
    whatever the field held, and leaves it. *)
Theorem processField_overwrites (value : string) typ :
  decoderFrom methods typ = None ->
  hasCase typ = true ->
  (exists y, forall field, processField methods value typ field = (y, None))
  \/ (exists e, forall field,
        processField methods value typ field = (field, Some e)).
Proof.
  intros Hdec Hcase.
  assert (Heq : forall field,
             processField methods value typ field
             = assignByKind (processField methods) value typ field).
  { intros field. rewrite processField_eq, Hdec.
    destruct typ; try reflexivity. discriminate Hcase. }
  destruct (assignByKind_overwrites (processField methods) value typ Hcase)
    as [[y Hy]|[e He]].
  - left. exists y. intros field. rewrite Heq. apply Hy.
  - right. exists e. intros field. rewrite Heq. apply He.
Qed.

(** ** Lists of lists *)

Lemma Split_comma_single p : countCommas p = 0 -> Split_comma p = [p].
Proof.
  induction p as [|c rest IH]; simpl; [reflexivity|].
  destruct (Ascii.eqb c ","); [discriminate|].
  simpl. intros H. rewrite (IH H). reflexivity.
Qed.

Lemma Forall2_transfer {A B} (R : A -> B -> Prop) (P : A -> Prop)
    (Q : B -> Prop) l1 l2 :
  (forall a b, P a -> R a b -> Q b) ->
  Forall2 R l1 l2 -> Forall P l1 -> Forall Q l2.
Proof.
  intros Hstep Hall. induction Hall as [|a b l1 l2 Hab Hall IH];
    intros HP; constructor; inversion HP; subst.
  - exact (Hstep a b H1 Hab).
  - apply IH. assumption.
Qed.

(** X12. A raw string is cut at its commas once, for the outer list: in a
    field that is a list of lists (no custom Decoders), every inner list
    that [processField] builds has exactly one element, and the outer list
    has one more element than the raw string has commas. *)
Theorem nested_slice_singletons
    (value : string) h h' elem (field field' : rvalue) :
  decoderFrom methods (TSlice h (TSlice h' elem)) = None ->
  decoderFrom methods (TSlice h' elem) = None ->
  processField methods value (TSlice h (TSlice h' elem)) field = (field', None) ->
  exists sl,
    field' = VSlice sl
    /\ length sl = S (countCommas value)
    /\ Forall (fun x => exists y, x = VSlice [y]) sl.
Proof.
  intros Hout Hin. rewrite processField_eq, Hout. cbn [assignByKind].
  destruct (processElems _ _ (Split_comma value)) as [sl|err] eqn:Hloop;
    [|discriminate].
  intros H. injection H as <-. exists sl. split; [reflexivity|].
  pose proof (processElems_ok _ _ _ _ Hloop) as Hall.
  split.
  - rewrite <- (Forall2_length Hall). apply Split_comma_length.
  - refine (Forall2_transfer _ _ _ _ _ _ Hall (Split_comma_pieces value)).
    intros piece x Hp Hx. cbv beta in Hp, Hx.
    rewrite processField_eq, Hin in Hx. cbn [assignByKind] in Hx.
    rewrite (Split_comma_single piece Hp) in Hx. simpl in Hx.
    destruct (processField methods piece elem (Zero elem)) as [y [e|]];
      [discriminate|].
    injection Hx as <-. exists y. reflexivity.
Qed.

(** ** Records that embed no record *)

(** X13. On a record that embeds no record, when the fields with a key are
    exported and the sink accepts what it is handed,
    [PopulateExternalSource] returns nil after exactly one [Set] for each
    field with a key, in the order of the fields, each with the key of the
    field and what the field holds. *)
Theorem PopulateExternalSource_flat
    (w : TagValueSetter) h hs fs vals :
  flat fs = true ->
  (forall sf, In sf fs ->
     Tag_Get (Tag sf) (TagName w) <> "" -> CanInterface sf = true) ->
  Forall (accepted w) (setsOf w fs vals) ->
  PopulateExternalSource w
    (Iface (TPtr h (TStruct hs fs)) (VPtr (Some (VStruct vals))))
  = (None, setsOf w fs vals).
Proof.
  intros Hflat Hcan Hacc. unfold PopulateExternalSource.
  rewrite Populate_Elem_struct.
  revert vals Hacc. induction fs as [|sf fs IH]; intros [|f vals] Hacc;
    try reflexivity.
  simpl in Hflat. apply andb_true_iff in Hflat. destruct Hflat as [Hsf Hflat].
  apply negb_true_iff in Hsf.
  simpl in Hacc. simpl. unfold Populate_field at 1. rewrite Hsf.
  destruct (String.eqb (Tag_Get (Tag sf) (TagName w)) "") eqn:Hkey; simpl.
  - rewrite (IH Hflat (fun sf' H => Hcan sf' (or_intror H)) vals Hacc).
    reflexivity.
  - apply String.eqb_neq in Hkey.
    rewrite (Hcan sf (or_introl eq_refl) Hkey).
    simpl in Hacc. inversion Hacc as [|? ? Hset Hrest]; subst.
    simpl in Hset. rewrite Hset.
    rewrite (IH Hflat (fun sf' H => Hcan sf' (or_intror H)) vals Hrest).
    reflexivity.
Qed.

(** X14. On a record that embeds no record, a [Process] that returns nil
    has asked the source exactly once for each settable, not ignored field
    with a key, in the order of the fields, whatever the answers were. *)
Theorem Process_flat_lookups
    (v : TagValueGetter) h hs fs vals spec' ev :
  flat fs = true ->
  length fs = length vals ->
  Process methods v (Iface (TPtr h (TStruct hs fs)) (VPtr (Some (VStruct vals))))
  = (None, spec', ev) ->
  ev = getsOf v fs.
Proof.
  intros Hflat Hlen. unfold Process. rewrite Process_Elem_struct.
  destruct (fieldsLoop (Process_field methods (Process_Elem methods v) v)
              fs vals) as [[e vals'] ev0] eqn:Hloop.
  intros H. injection H as -> _ <-. clear spec'.
  revert vals vals' ev0 Hlen Hloop.
  induction fs as [|sf fs IH]; intros [|f vals] vals' ev0 Hlen Hloop;
    simpl in Hlen; try discriminate.
  - simpl in Hloop. injection Hloop as _ <-. reflexivity.
  - simpl in Hflat. apply andb_true_iff in Hflat.
    destruct Hflat as [Hsf Hflat]. apply negb_true_iff in Hsf.
    injection Hlen as Hlen. simpl in Hloop.
    rewrite (Process_field_ordinary methods _ v sf f Hsf) in Hloop.
    simpl.
    destruct (negb (CanSet sf) || String.eqb (Tag_Get (Tag sf) "ignored") "true").
    + destruct (fieldsLoop _ fs vals) as [[e1 vals1] ev1] eqn:Hrest.
      injection Hloop as -> _ <-. simpl.
      exact (IH Hflat vals vals1 ev1 Hlen Hrest).
    + destruct (Process_keyed_cases v sf f) as [[Hkey Hk]|(Hkey & e1 & f1 & Hk & _)];
        rewrite Hk in Hloop.
      * rewrite Hkey. simpl.
        destruct (fieldsLoop _ fs vals) as [[e2 vals2] ev2] eqn:Hrest.
        injection Hloop as -> _ <-. simpl.
        exact (IH Hflat vals vals2 ev2 Hlen Hrest).
      * rewrite (eqb_empty_false _ Hkey).
        destruct e1 as [err|]; [discriminate|].
        destruct (fieldsLoop _ fs vals) as [[e2 vals2] ev2] eqn:Hrest.
        injection Hloop as -> _ <-. simpl. f_equal.
        exact (IH Hflat vals vals2 ev2 Hlen Hrest).
Qed.

End Further.

(** * The further properties at work *)

(** X2 at [Specification] without its required key. *)
Lemma Process_error_kinds_witness :
  madeByProcess (errorString "required key crash.count missing value").
Proof.
  destruct (Process_error_kinds noMethods (MockGetter [])
              (addr Specification (VStruct [VInt 0; VString ""]))
              (addr Specification (VStruct [VInt 0; VString ""]))
              (errorString "required key crash.count missing value")
              [CallGet "crash.count" crashCountField]
              (or_introl eq_refl)) as [[H _]|H].
  - discriminate H.
  - exact H.
Defined.

(** X3 at a temperature: the Decoder's own error, "not a temperature", is
    not what [Process] returns. *)
Lemma Process_wraps_decoder_error_witness :
  Process celsiusMethods (MockGetter [("temp", "21")])
    (addr Weather (VStruct [VString ""]))
  = (Some (ParseErrorPtr
             {| FieldName := "temp"; TypeName := "tagconfig_test.Celsius";
                Value := "21" |}),
     addr Weather (VStruct [VString ""]),
     [CallGet "temp" tempField]).
Proof.
  exact (proj2 (Process_wraps_decoder_error celsiusMethods
                  (MockGetter [("temp", "21")])
                  (hdr (PtrTo Weather)) (named "tagconfig_test" "Weather")
                  [] tempField [] [] (VString "") [] [] [] (VString "") []
                  (DecByAddr (fun _ recv =>
                                (recv, Some (errorString "not a temperature"))))
                  "21" (VString "") (errorString "not a temperature")
                  eq_refl eq_refl eq_refl
                  (fun H => ltac:(discriminate H)) eq_refl
                  (fun H => ltac:(discriminate H)) eq_refl eq_refl eq_refl)).
Defined.

(** X4 at a record whose fields say [required] and [default] but carry no
    key under the tag name [env]. *)
Lemma keyless_record_untouched_witness :
  let s := VStruct [VInt 0; VString ""; VStruct [VString ""]] in
  keyless "env" Untagged = true
  /\ Process noMethods (MapGetter "env" [("Port", "80")]) (addr Untagged s)
     = (None, addr Untagged s, [])
  /\ PopulateExternalSource (anySetter "env") (addr Untagged s) = (None, []).
Proof.
  intros s.
  pose proof (keyless_record_untouched noMethods
                (MapGetter "env" [("Port", "80")]) (anySetter "env")
                (hdr (PtrTo Untagged)) Untagged s eq_refl eq_refl) as [HP HS].
  split; [reflexivity|]. split; [exact HP|exact (HS eq_refl eq_refl)].
Defined.

(** X5 at [Specification] with a bad count: the handle after it keeps what
    it held. *)
Lemma Process_stops_at_first_error_witness :
  let v := MockGetter [("crash.count", "x"); ("handle", "crash.override")] in
  let body := Process_field noMethods (Process_Elem noMethods v) v in
  exists pre sf post vpre f vpost vpre' f' ev0 evi,
    [crashCountField; handleField] = pre ++ sf :: post
    /\ [VInt 0; VString "acid.burn"] = vpre ++ f :: vpost
    /\ length pre = length vpre
    /\ fieldsLoop body pre vpre = (None, vpre', ev0)
    /\ body sf f
       = (Some (ParseErrorPtr
                  {| FieldName := "crash.count"; TypeName := "int";
                     Value := "x" |}), f', evi)
    /\ addr Specification (VStruct [VInt 0; VString "acid.burn"])
       = Iface (TPtr (hdr (PtrTo Specification))
                  (TStruct (named "tagconfig_test" "Specification")
                     [crashCountField; handleField]))
           (VPtr (Some (VStruct (vpre' ++ f' :: vpost))))
    /\ [CallGet "crash.count" crashCountField] = ev0 ++ evi.
Proof.
  intros v body.
  exact (Process_stops_at_first_error noMethods v
           (hdr (PtrTo Specification)) (named "tagconfig_test" "Specification")
           [crashCountField; handleField] [VInt 0; VString "acid.burn"]
           (ParseErrorPtr
              {| FieldName := "crash.count"; TypeName := "int"; Value := "x" |})
           (addr Specification (VStruct [VInt 0; VString "acid.burn"]))
           [CallGet "crash.count" crashCountField] eq_refl).
Defined.

(** X6 at [Specification], filled once and processed again. *)
Lemma Process_idempotent_witness :
  let v := MockGetter [("crash.count", "1507")] in
  let filled := addr Specification (VStruct [VInt 1507; VString "zero.cool"]) in
  Process noMethods v filled
  = (None, filled,
     [CallGet "crash.count" crashCountField; CallGet "handle" handleField]).
Proof.
  intros v filled.
  exact (Process_idempotent noMethods v
           (addr Specification (VStruct [VInt 0; VString ""])) filled None
           [CallGet "crash.count" crashCountField; CallGet "handle" handleField]
           (fun t => eq_refl) eq_refl).
Defined.

(** X8 at a person with a boolean and a sink of strings: the error is that
    of the last call, the one before it was accepted. *)
Lemma PopulateExternalSource_verdict_witness :
  sinkVerdict mockSetter
    (Some (Return (errorString "Received a non string")))
    [CallSet "name" (VString "His Dudeness") nameField;
     CallSet "abides" (VBool true) abidesField].
Proof.
  exact (PopulateExternalSource_verdict mockSetter (hdr (PtrTo personAbides))
           personAbides (VStruct [VString "His Dudeness"; VBool true])
           (Some (Return (errorString "Received a non string")))
           [CallSet "name" (VString "His Dudeness") nameField;
            CallSet "abides" (VBool true) abidesField]
           eq_refl eq_refl).
Defined.

(** X9 at [person], whose fields are exported, and at a record with an
    unexported field that has no key. *)
Lemma PopulateExternalSource_no_panic_witness :
  readable "bl" person = true
  /\ readable "emaNgaT" personUnexported = true
  /\ fst (PopulateExternalSource mockSetter
            (addr person
               (VStruct [VString "The dude"; VString "40";
                         VStruct [VString ""; VString ""; VString ""]])))
     <> Some (Panic panicInterface).
Proof.
  split; [reflexivity|]. split; [reflexivity|].
  exact (PopulateExternalSource_no_panic mockSetter (hdr (PtrTo person)) person
           (VPtr (Some (VStruct [VString "The dude"; VString "40";
                                 VStruct [VString ""; VString ""; VString ""]])))
           panicInterface eq_refl).
Defined.

(** X10 at an [int] that held 7, and at a nil pointer to an [int]. *)
Lemma processField_failure_keeps_field_witness :
  fst (processField noMethods "x" t_int (VInt 7)) = VInt 7
  /\ fst (processField noMethods "x" (PtrTo t_int) (VPtr None))
     = VPtr (Some (VInt 0)).
Proof.
  split.
  - exact (proj1 (processField_failure_keeps_field noMethods "x" t_int (VInt 7)
                    (fst (processField noMethods "x" t_int (VInt 7)))
                    errSyntax eq_refl eq_refl)
             (fun H => ltac:(discriminate H))).
  - exact (proj2 (processField_failure_keeps_field noMethods "x" (PtrTo t_int)
                    (VPtr None)
                    (fst (processField noMethods "x" (PtrTo t_int) (VPtr None)))
                    errSyntax eq_refl eq_refl)
             _ t_int eq_refl).
Defined.

(** X11 at a list of integers. *)
Lemma processField_overwrites_witness :
  (exists y, forall field,
      processField noMethods "1,2,3" t_ints field = (y, None))
  \/ (exists e, forall field,
        processField noMethods "1,2,3" t_ints field = (field, Some e)).
Proof.
  exact (processField_overwrites noMethods "1,2,3" t_ints eq_refl eq_refl).
Defined.

(** X12 at a list of lists of integers. *)
Lemma nested_slice_singletons_witness :
  exists sl,
    VSlice [VSlice [VInt 1]; VSlice [VInt 2]] = VSlice sl
    /\ length sl = S (countCommas "1,2")
    /\ Forall (fun x => exists y, x = VSlice [y]) sl.
Proof.
  exact (nested_slice_singletons noMethods "1,2" (hdr t_intss) (hdr t_ints)
           t_int VNilSlice (VSlice [VSlice [VInt 1]; VSlice [VInt 2]])
           eq_refl eq_refl eq_refl).
Defined.

(** X13 at a person with a boolean and a sink that takes everything. *)
Lemma PopulateExternalSource_flat_witness :
  PopulateExternalSource (anySetter "bl")
    (addr personAbides (VStruct [VString "His Dudeness"; VBool true]))
  = (None,
     [CallSet "name" (VString "His Dudeness") nameField;
      CallSet "abides" (VBool true) abidesField]).
Proof.
  refine (PopulateExternalSource_flat (anySetter "bl")
            (hdr (PtrTo personAbides)) (named "tagconfig_test" "person")
            [nameField; abidesField] [VString "His Dudeness"; VBool true]
            eq_refl _ _).
  - intros sf [<-|[<-|[]]] _; reflexivity.
  - repeat constructor.
Defined.

(** X14 at [Specification]. *)
Lemma Process_flat_lookups_witness :
  [CallGet "crash.count" crashCountField; CallGet "handle" handleField]
  = getsOf (MockGetter [("crash.count", "1507")])
      [crashCountField; handleField].
Proof.
  exact (Process_flat_lookups noMethods (MockGetter [("crash.count", "1507")])
           (hdr (PtrTo Specification)) (named "tagconfig_test" "Specification")
           [crashCountField; handleField] [VInt 0; VString ""]
           (addr Specification (VStruct [VInt 1507; VString "zero.cool"]))
           [CallGet "crash.count" crashCountField; CallGet "handle" handleField]
           eq_refl eq_refl eq_refl).
Defined.
